(** * AccessibilityEngine: the chunking scripts of [508Data/]

    A shallow embedding of the three scraping scripts

      - [508Data/wcag22pdfscraper.py]   (module [WcagPdf]),
      - [508Data/wcag_scraper.py]       (module [WcagHtml]),
      - [508Data/import requests.py]    (module [AccessBoard]),

    together with the part of Python's [str] and [re] they rely on
    (modules [Py] and [Re]).  Fetching, PDF text extraction, HTML parsing
    and JSON writing are collaborators: the embedding starts at the text
    (or element sequence) they hand over and stops at the list of chunks
    passed to [json.dump]. *)

From Stdlib Require Import NArith String Ascii DecimalString DecimalNat Sorted Lia.
From stdpp Require Import base list.

Local Open Scope N_scope.
Local Open Scope nat_scope.

(** ** Python strings *)

Module Py.

(** A [str] is a sequence of Unicode code points. *)
Definition char := N.
Definition str := list char.

Definition ord (a : ascii) : char := N_of_ascii a.

(** ASCII string literals of the scripts. *)
Definition lit (s : string) : str := map ord (list_ascii_of_string s).

(** The line feed, written ['\n'] in the scripts. *)
Definition nl : char := 10%N.

(** [str.isspace] on one code point, which is also the class [\s] of a
    [str] pattern: U+0009..U+000D, U+001C..U+0020, U+0085, U+00A0,
    U+1680, U+2000..U+200A, U+2028, U+2029, U+202F, U+205F, U+3000. *)
Definition isspace (c : char) : bool :=
  ((9 <=? c) && (c <=? 13) || (28 <=? c) && (c <=? 32)
   || (c =? 133) || (c =? 160) || (c =? 5760)
   || (8192 <=? c) && (c <=? 8202)
   || (c =? 8232) || (c =? 8233) || (c =? 8239) || (c =? 8287)
   || (c =? 12288))%N.

(** [s.lstrip()], [s.rstrip()], [s.strip()]. *)
Fixpoint lstrip (s : str) : str :=
  match s with
  | c :: s' => if isspace c then lstrip s' else s
  | [] => []
  end.

Definition rstrip (s : str) : str := rev (lstrip (rev s)).

Definition strip (s : str) : str := rstrip (lstrip s).

(** [s[a:b]] for [0 <= a], [0 <= b]. *)
Definition slice (s : str) (a b : nat) : str := take (b - a) (drop a s).

(** [text or ''], where [text] is [None] or a [str]: the empty string is
    falsy as well. *)
Definition or_empty (text : option str) : str :=
  match text with
  | Some (c :: s) => c :: s
  | Some [] | None => []
  end.

(** The decimal text of an [int] index [i >= 0], as an f-string formats
    it. *)
Definition str_of_nat (i : nat) : str :=
  lit (NilZero.string_of_uint (Nat.to_uint i)).

(** Exceptions the scripts can run into. *)
Inductive exn := TypeError | NameError | StopIteration.

Inductive result (A : Type) :=
| Ok (a : A)
| Raise (e : exn).
Arguments Ok {A} a.
Arguments Raise {A} e.

Definition bind {A B : Type} (r : result A) (k : A -> result B) : result B :=
  match r with
  | Ok a => k a
  | Raise e => Raise e
  end.

(** [zip(it, it)] over one iterator [it]: consecutive items are paired,
    and an unpaired last item is dropped. *)
Fixpoint zip_it {A : Type} (it : list A) : list (A * A) :=
  match it with
  | a :: b :: rest => (a, b) :: zip_it rest
  | _ => []
  end.

(** [enumerate(l)]. *)
Definition enumerate {A : Type} (l : list A) : list (nat * A) := imap pair l.

End Py.

Notation "x <- r ;; k" := (Py.bind r (fun x => k))
  (at level 100, r at next level, right associativity).

(** ** Python regular expressions

    The patterns of the scripts are built from single characters and
    character classes, greedy repetitions of a character class and
    capturing groups, in sequence.  As in the compiled form of [re], a
    pattern is a straight list of operations, a group being delimited by a
    pair of marks: group [k] lies between mark [2k-2] and mark [2k-1]. *)

Module Re.
Import Py.

Inductive op :=
| In (p : char -> bool)
    (* one character of a class; a literal is the class of that character *)
| Repeat (lo : nat) (hi : option nat) (p : char -> bool)
    (* greedy [p{lo,hi}]; [hi = None] for [p*] and [p+] *)
| Mark (i : nat).

Definition regex := list op.

Definition marks := list (nat * nat).

(** Length of the longest run of [p]-characters heading [s], capped by
    [hi]. *)
Fixpoint count (p : char -> bool) (hi : option nat) (s : str) : nat :=
  match s with
  | c :: s' =>
      if p c then
        match hi with
        | Some 0 => 0
        | Some (S h) => S (count p (Some h) s')
        | None => S (count p None s')
        end
      else 0
  | [] => 0
  end.

(** Backtracking of a greedy repetition: the continuation [f] is tried
    with [n], [n-1], ..., [lo] repetitions, and the first success wins. *)
Fixpoint try_down {A : Type} (f : nat -> option A) (lo n : nat) : option A :=
  if n <? lo then None
  else
    match f n with
    | Some r => Some r
    | None =>
        match n with
        | 0 => None
        | S n' => try_down f lo n'
        end
    end.

(** The backtracking matcher, anchored at the head of [s].  [pos] is the
    number of characters consumed so far; the result is the length of
    the match and the marks, positions counted from the start of the
    match. *)
Fixpoint run (prog : regex) (s : str) (pos : nat) (ms : marks)
  : option (nat * marks) :=
  match prog with
  | [] => Some (pos, ms)
  | In p :: k =>
      match s with
      | c :: s' => if p c then run k s' (S pos) ms else None
      | [] => None
      end
  | Repeat lo hi p :: k =>
      try_down (fun j => run k (drop j s) (pos + j) ms) lo (count p hi s)
  | Mark i :: k => run k s pos ((i, pos) :: ms)
  end.

(** A match object: where the match starts in the searched string, the
    string from there on, the length of the match and its marks. *)
Record rmatch := {
  m_start : nat;
  m_rest : str;
  m_len : nat;
  m_marks : marks
}.

Fixpoint mark_pos (i : nat) (ms : marks) : option nat :=
  match ms with
  | (j, p) :: ms' => if i =? j then Some p else mark_pos i ms'
  | [] => None
  end.

(** [m.group(0)] and [m.group(k)] for [k >= 1].  Every mark of a
    straight-line pattern is set by a successful match (see
    [run_sets_marks]), so a group of the pattern is always a string. *)
Definition group0 (m : rmatch) : str := take (m_len m) (m_rest m).

Definition group (m : rmatch) (k : nat) : str :=
  match mark_pos (2 * k - 2) (m_marks m), mark_pos (2 * k - 1) (m_marks m) with
  | Some a, Some b => slice (m_rest m) a b
  | _, _ => []
  end.

Definition match_at (prog : regex) (pos : nat) (s : str) : option rmatch :=
  match run prog s 0 [] with
  | Some (n, ms) =>
      Some {| m_start := pos; m_rest := s; m_len := n; m_marks := ms |}
  | None => None
  end.

(** [re.match(prog, s)]. *)
Definition re_match (prog : regex) (s : str) : option rmatch :=
  match_at prog 0 s.

(** [re.search(prog, s)]: the match at the leftmost position that has
    one. *)
Fixpoint search_from (prog : regex) (pos : nat) (s : str) : option rmatch :=
  match match_at prog pos s with
  | Some m => Some m
  | None =>
      match s with
      | [] => None
      | _ :: s' => search_from prog (S pos) s'
      end
  end.

Definition re_search (prog : regex) (s : str) : option rmatch :=
  search_from prog 0 s.

(** The left-to-right scan shared by [re.sub], [re.split] and
    [re.finditer]: the text is cut into the matches found, leftmost
    first and not overlapping, and the characters between them.  [skip]
    counts the characters still covered by the last match.  The
    patterns of the scripts consume at least one character (see
    [run_consuming] and [patterns_consuming]); a match of length 0 is
    not a hit of this scan. *)
Inductive piece :=
| Ch (c : char)
| Hit (m : rmatch).

Fixpoint scan (prog : regex) (pos skip : nat) (s : str) : list piece :=
  match s with
  | [] => []
  | c :: s' =>
      match skip with
      | S k => scan prog (S pos) k s'
      | 0 =>
          match match_at prog pos s with
          | Some m =>
              match m_len m with
              | S n => Hit m :: scan prog (S pos) n s'
              | 0 => Ch c :: scan prog (S pos) 0 s'
              end
          | None => Ch c :: scan prog (S pos) 0 s'
          end
      end
  end.

(** [re.finditer(prog, s)], as a list. *)
Definition hit_of (p : piece) : option rmatch :=
  match p with
  | Hit m => Some m
  | Ch _ => None
  end.

Definition re_finditer (prog : regex) (s : str) : list rmatch :=
  omap hit_of (scan prog 0 0 s).

(** [re.sub(prog, repl, s)] for a replacement [repl] without group
    references. *)
Definition sub_piece (repl : str) (p : piece) : str :=
  match p with
  | Ch c => [c]
  | Hit _ => repl
  end.

Definition re_sub (prog : regex) (repl : str) (s : str) : str :=
  flat_map (sub_piece repl) (scan prog 0 0 s).

(** Number of capturing groups of a pattern. *)
Fixpoint ngroups (prog : regex) : nat :=
  match prog with
  | Mark i :: k => Nat.max (S i / 2) (ngroups k)
  | _ :: k => ngroups k
  | [] => 0
  end.

Definition groups (n : nat) (m : rmatch) : list str :=
  map (group m) (seq 1 n).

(** [re.split(prog, s)]: the text between the matches, and after each
    match the text of all its groups. *)
Fixpoint split_pieces (n : nat) (ps : list piece) : str * list str :=
  match ps with
  | [] => ([], [])
  | Ch c :: ps' =>
      let '(seg, segs) := split_pieces n ps' in (c :: seg, segs)
  | Hit m :: ps' =>
      let '(seg, segs) := split_pieces n ps' in ([], groups n m ++ seg :: segs)
  end.

Definition re_split (prog : regex) (s : str) : list str :=
  let '(seg, segs) := split_pieces (ngroups prog) (scan prog 0 0 s) in
  seg :: segs.

(** A pattern with a mandatory character never matches the empty
    string. *)
Definition consumes (o : op) : bool :=
  match o with
  | In _ => true
  | Repeat lo _ _ => negb (lo =? 0)
  | Mark _ => false
  end.

Definition consuming (prog : regex) : bool := existsb consumes prog.

(** Pattern syntax. *)
Definition chr (a : ascii) : op := In (N.eqb (ord a)).

Definition lits (s : string) : regex := map chr (list_ascii_of_string s).

Definition plus (p : char -> bool) : op := Repeat 1 None p.
Definition star (p : char -> bool) : op := Repeat 0 None p.

(** [\s]. *)
Definition space : char -> bool := isspace.

(** [.] without DOTALL, and [[^\n]]. *)
Definition not_newline (c : char) : bool := negb (c =? nl)%N.

(** [\d] of a [str] pattern: a Unicode decimal digit.  In the ASCII
    range these are [0-9]; beyond it the class is read off the Unicode
    database of the interpreter, the table [nd]. *)
Definition digit (nd : char -> bool) (c : char) : bool :=
  if (c <? 128)%N then (48 <=? c)%N && (c <=? 57)%N else nd c.

End Re.

(** ** [508Data/wcag22pdfscraper.py] *)

Module WcagPdf.
Import Py Re.

Section Script.
(** The decimal digits beyond ASCII of the interpreter's Unicode
    database. *)
Variable nd : char -> bool.

(** [re.sub(r'\s+', ' ', txt).strip()]; [re.sub] raises [TypeError]
    when [txt] is [None]. *)
Definition whitespace : regex := [plus space].

Definition clean (txt : option str) : result str :=
  match txt with
  | Some s => Ok (strip (re_sub whitespace (lit " ") s))
  | None => Raise TypeError
  end.

(** The dictionaries appended to [chunks]. *)
Record chunk := {
  id : str;
  section : str;
  title : str;
  text : str;
  source : str
}.

(** [full_text], one ['\n' + page.extract_text()] per page. *)
Definition full_text_of (pages : list str) : str :=
  fold_left (fun full_text page => full_text ++ nl :: page) pages [].

(** The heading pattern [( \d \. \d \. \d+ \s+ [^\n]+ )]. *)
Definition pattern : regex :=
  [Mark 0; In (digit nd); chr "."; In (digit nd); chr "."; plus (digit nd);
   plus space; plus not_newline; Mark 1].

(** The heading decomposition [( \d \. \d \. \d+ ) \s+ ( .* )]. *)
Definition header_re : regex :=
  [Mark 0; In (digit nd); chr "."; In (digit nd); chr "."; plus (digit nd);
   Mark 1; plus space; Mark 2; star not_newline; Mark 3].

(** The body of [for header, body in zip(it, it)], with the list
    [chunks] built so far. *)
Fixpoint loop (pairs : list (str * str)) (chunks : list chunk)
  : result (list chunk) :=
  match pairs with
  | [] => Ok chunks
  | (header, body) :: rest =>
      header_txt <- clean (Some header) ;;
      match re_match header_re header_txt with
      | None => loop rest chunks
      | Some m =>
          let section := group m 1 in
          let title := group m 2 in
          text <- clean (Some body) ;;
          loop rest
            (chunks ++ [ {| id := section;
                            section := section;
                            title := title;
                            text := text;
                            source := lit "WCAG 2.2 PDF" |} ])
      end
  end.

(** The script from [parts = re.split(pattern, full_text)] on;
    [next(it)] raises [StopIteration] on an exhausted iterator. *)
Definition build (full_text : str) : result (list chunk) :=
  let parts := re_split pattern full_text in
  match parts with
  | [] => Raise StopIteration
  | _ :: it => loop (zip_it it) []
  end.

Definition main (pages : list str) : result (list chunk) :=
  build (full_text_of pages).

End Script.
End WcagPdf.

(** ** [508Data/wcag_scraper.py] *)

Module WcagHtml.
Import Py Re.

Section Script.
Variable nd : char -> bool.

Definition WCAG_URL : str := lit "https://www.w3.org/TR/WCAG22/".

(** [re.sub(r'\s+', ' ', text or '').strip()] *)
Definition whitespace : regex := [plus space].

Definition clean (text : option str) : str :=
  strip (re_sub whitespace (lit " ") (or_empty text)).

Record chunk := {
  id : str;
  section : str;
  title : str;
  level : option str;
  text : str;
  source : str
}.

(** The heading pattern
    [( Success Criterion \s+ \d \. \d \. \d+ \s+ [^\n]+ )]. *)
Definition pattern : regex :=
  Mark 0 :: lits "Success Criterion" ++
  [plus space; In (digit nd); chr "."; In (digit nd); chr ".";
   plus (digit nd); plus space; plus not_newline; Mark 1].

(** The heading decomposition
    [Success Criterion \s+ ( \d \. \d \. \d+ ) \s+ ( .* )]. *)
Definition header_re : regex :=
  lits "Success Criterion" ++
  [plus space; Mark 0; In (digit nd); chr "."; In (digit nd); chr ".";
   plus (digit nd); Mark 1; plus space; Mark 2; star not_newline; Mark 3].

(** The level marker [\( Level \s+ ( [A]{1,3} ) \)]. *)
Definition level_re : regex :=
  lits "(Level" ++
  [plus space; Mark 0; Repeat 1 (Some 3) (N.eqb (ord "A")); Mark 1; chr ")"].

(** The level marker without its group, [\( Level \s+ [A]{1,3} \)]. *)
Definition level_strip_re : regex :=
  lits "(Level" ++
  [plus space; Repeat 1 (Some 3) (N.eqb (ord "A")); chr ")"].

(** The body of [for header, body in zip(it, it)]. *)
Fixpoint loop (pairs : list (str * str)) (chunks : list chunk)
  : list chunk :=
  match pairs with
  | [] => chunks
  | (header, body) :: rest =>
      let header := clean (Some header) in
      let body := strip body in
      match re_match header_re header with
      | None => loop rest chunks
      | Some m =>
          let section_id := group m 1 in
          let title := group m 2 in
          let level_match := re_search level_re body in
          let level :=
            match level_match with
            | Some lm => Some (group lm 1)
            | None => None
            end in
          let body_clean := re_sub level_strip_re [] body in
          let body_clean := clean (Some body_clean) in
          loop rest
            (chunks ++ [ {| id := section_id;
                            section := section_id;
                            title := title;
                            level := level;
                            text := body_clean;
                            source := WCAG_URL |} ])
      end
  end.

(** [extract_success_criteria] from [full_text] on, the text that
    [main.get_text('\n', strip=True)] hands over. *)
Definition extract_success_criteria (full_text : str) : list chunk :=
  let parts := re_split pattern full_text in
  let it := tail parts in
  loop (zip_it it) [].

End Script.
End WcagHtml.

(** ** [508Data/import requests.py] *)

Module AccessBoard.
Import Py.

Definition url : str := lit "https://www.access-board.gov/ict/".

(** An element of [content.find_all(['h1','h2','h3','p','li'])]: its tag
    name [el.name] and its text [el.get_text(separator=' ', strip=True)]. *)
Record element := {
  name : str;
  get_text : str
}.

(** Truth value of an element: a [Tag] of BeautifulSoup is always true. *)
Definition tag_bool (el : element) : bool := true.

(** Truth value of a string. *)
Definition str_bool (s : str) : bool :=
  match s with
  | [] => false
  | _ :: _ => true
  end.

Record chunk := {
  id : str;
  source : str;
  text : str;
  type : str
}.

(** The first loop, [for el in content.find_all(...)], on the state it
    writes: the list [paragraphs] and the variable [el], unbound ([None])
    until the first iteration. *)
Fixpoint extract (els : list element)
    (paragraphs : list str) (el : option element)
  : list str * option element :=
  match els with
  | [] => (paragraphs, el)
  | e :: rest =>
      let text := get_text e in
      if str_bool text
      then extract rest (paragraphs ++ [text]) (Some e)
      else extract rest paragraphs (Some e)
  end.

(** The second loop, [for i, para in enumerate(paragraphs)]; it reads
    [el], and reading an unbound name raises [NameError]. *)
Fixpoint build (el : option element) (items : list (nat * str))
    (chunks : list chunk) : result (list chunk) :=
  match items with
  | [] => Ok chunks
  | (i, para) :: rest =>
      match el with
      | None => Raise NameError
      | Some e =>
          let chunk :=
            {| id := lit "access-board-ict-" ++ str_of_nat i;
               source := url;
               text := para;
               type := if tag_bool e then name e else lit "p" |} in
          build el rest (chunks ++ [chunk])
      end
  end.

Definition main (els : list element) : result (list chunk) :=
  let '(paragraphs, el) := extract els [] None in
  build el (enumerate paragraphs) [].

End AccessBoard.

(** * Vocabulary of the statements *)

Section Vocabulary.
Import Py Re.

(** ** Whitespace *)

(** Both scripts clean a string with the same expression: every run of
    whitespace becomes one space, then the ends are stripped. *)
Definition squeeze (s : str) : str := re_sub [plus space] (lit " ") s.

Definition clean_str (s : str) : str := strip (squeeze s).

(** The first character is whitespace. *)
Definition starts_space (s : str) : bool :=
  match s with
  | c :: _ => isspace c
  | [] => false
  end.

(** Normal form: every whitespace character is a single space that no
    whitespace follows. *)
Fixpoint collapsed (s : str) : bool :=
  match s with
  | [] => true
  | c :: s' =>
      (if isspace c then (c =? 32)%N && negb (starts_space s') else true)
      && collapsed s'
  end.

(** Empty or whitespace only. *)
Definition blank (s : str) : Prop := Forall (fun c => isspace c = true) s.

(** ** Matches in a text *)

(** A match ends before the next one starts. *)
Definition before (m m' : rmatch) : Prop :=
  m_start m + m_len m <= m_start m'.

(** A match of the scan of [s] from position [pos]: it lies in [s], is
    not empty, and is what the matcher finds where it starts. *)
Definition located (prog : regex) (pos : nat) (s : str) (m : rmatch)
  : Prop :=
  pos <= m_start m /\
  m_rest m = drop (m_start m - pos) s /\
  0 < m_len m /\
  m_start m + m_len m <= pos + length s /\
  run prog (m_rest m) 0 [] = Some (m_len m, m_marks m).

(** The effect of a closing mark at the end of a pattern. *)
Definition close_mark (i : nat) (r : option (nat * marks))
  : option (nat * marks) :=
  match r with
  | Some (e, ms) => Some (e, (i, e) :: ms)
  | None => None
  end.

(** Patterns without groups, and a pattern with its groups removed. *)
Definition is_mark (o : op) : bool :=
  match o with
  | Mark _ => true
  | _ => false
  end.

Definition no_marks (k : regex) : bool := forallb (fun o => negb (is_mark o)) k.

Definition erase_marks (prog : regex) : regex :=
  List.filter (fun o => negb (is_mark o)) prog.

(** The pattern of a literal string. *)
Definition literal (cs : str) : regex := map (fun c => In (N.eqb c)) cs.

(** ** The level marker *)

Definition letter_A : char := 65%N.

(** A marker: an opening parenthesis, Level, whitespace, [k] letters A
    and a closing parenthesis. *)
Definition marker (ws : str) (k : nat) : str :=
  lit "(Level" ++ ws ++ repeat letter_A k ++ lit ")".

(** What the marker pattern describes: whitespace that is not empty,
    and one to three letters. *)
Definition is_marker (m : str) : Prop :=
  exists ws k, m = marker ws k /\ ws <> [] /\ blank ws /\ 1 <= k <= 3.

(** A string contains a marker. *)
Definition has_marker (s : str) : Prop :=
  exists pre m post, s = pre ++ m ++ post /\ is_marker m.

(** A text cut at markers: the text [g0] before the first marker, and
    then each marker with the text that follows it. *)
Definition with_markers (g0 : str) (rest : list (str * str)) : str :=
  g0 ++ concat (map (fun p => p.1 ++ p.2) rest).

(** The same text with these markers taken out. *)
Definition without_markers (g0 : str) (rest : list (str * str)) : str :=
  g0 ++ concat (map snd rest).

(** The marker pattern after its literal prefix. *)
Definition level_tail : regex :=
  [plus space; Mark 0; Repeat 1 (Some 3) (N.eqb (ord "A")); Mark 1; chr ")"].

(** ** The loops, one pair at a time *)

Section Headings.
Variable nd : char -> bool.

(** What one turn of the loop of [WcagPdf] appends for a pair, if
    anything. *)
Definition pdf_chunk_of (pair : str * str) : option WcagPdf.chunk :=
  match re_match (WcagPdf.header_re nd) (clean_str pair.1) with
  | None => None
  | Some m =>
      Some {| WcagPdf.id := group m 1;
              WcagPdf.section := group m 1;
              WcagPdf.title := group m 2;
              WcagPdf.text := clean_str pair.2;
              WcagPdf.source := lit "WCAG 2.2 PDF" |}
  end.

(** The same for the loop of [WcagHtml]. *)
Definition html_chunk_of (pair : str * str) : option WcagHtml.chunk :=
  match re_match (WcagHtml.header_re nd) (clean_str pair.1) with
  | None => None
  | Some m =>
      Some {| WcagHtml.id := group m 1;
              WcagHtml.section := group m 1;
              WcagHtml.title := group m 2;
              WcagHtml.level :=
                match re_search WcagHtml.level_re (strip pair.2) with
                | Some lm => Some (group lm 1)
                | None => None
                end;
              WcagHtml.text :=
                clean_str (re_sub WcagHtml.level_strip_re [] (strip pair.2));
              WcagHtml.source := WcagHtml.WCAG_URL |}
  end.

(** The heading decompositions: identifier and label of a heading. *)
Definition pdf_heading (header : str) : option (str * str) :=
  match re_match (WcagPdf.header_re nd) (clean_str header) with
  | Some m => Some (group m 1, group m 2)
  | None => None
  end.

Definition html_heading (header : str) : option (str * str) :=
  match re_match (WcagHtml.header_re nd) (clean_str header) with
  | Some m => Some (group m 1, group m 2)
  | None => None
  end.

End Headings.

(** ** The page scrape *)

Import AccessBoard.

(** The chunk the second loop builds at index [i] once [el] is bound to
    [e]. *)
Definition chunk_at (e : element) (i : nat) (para : str) : chunk :=
  {| id := lit "access-board-ict-" ++ str_of_nat i;
     source := url;
     text := para;
     type := name e |}.

End Vocabulary.

(** ** The examples *)

Section Examples.
Import Py Re.

(** The text of the end-to-end example. *)
Definition example_text : str :=
  lit "1.1.1 Non-text Content" ++ nl ::
  lit "All content has alt text. (Level A)" ++ nl ::
  lit "1.2.1 Audio-only" ++ nl ::
  lit "Provide transcript. (Level AA)" ++ [nl].

(** The same text with the headings the HTML scraper looks for. *)
Definition example_text_sc : str :=
  lit "Success Criterion 1.1.1 Non-text Content" ++ nl ::
  lit "All content has alt text. (Level A)" ++ nl ::
  lit "Success Criterion 1.2.1 Audio-only" ++ nl ::
  lit "Provide transcript. (Level AA)" ++ [nl].

(** The fields the example names.  A chunk of the PDF scraper has no
    [level] key: its level is absent. *)
Record summary := {
  s_id : str;
  s_title : str;
  s_level : option str;
  s_text : str
}.

Definition pdf_summary (c : WcagPdf.chunk) : summary :=
  {| s_id := WcagPdf.id c;
     s_title := WcagPdf.title c;
     s_level := None;
     s_text := WcagPdf.text c |}.

Definition html_summary (c : WcagHtml.chunk) : summary :=
  {| s_id := WcagHtml.id c;
     s_title := WcagHtml.title c;
     s_level := WcagHtml.level c;
     s_text := WcagHtml.text c |}.

Definition example_chunks : list summary :=
  [ {| s_id := lit "1.1.1";
       s_title := lit "Non-text Content";
       s_level := Some (lit "A");
       s_text := lit "All content has alt text." |};
    {| s_id := lit "1.2.1";
       s_title := lit "Audio-only";
       s_level := Some (lit "AA");
       s_text := lit "Provide transcript." |} ].

(** A Unicode table without decimal digits beyond ASCII. *)
Definition ascii_digits_only : char -> bool := fun _ => false.

Definition element_of (name text : string) : AccessBoard.element :=
  {| AccessBoard.name := lit name; AccessBoard.get_text := lit text |}.

Definition example_elements : list AccessBoard.element :=
  [element_of "h1" "Title"; element_of "p" EmptyString; element_of "p" "Body text"].

(** A heading followed by a list item. *)
Definition scope_elements : list AccessBoard.element :=
  [element_of "h2" "Scope"; element_of "li" "Item"].

(** Three pairs of the PDF scraper; the heading of the second is a
    section number followed by whitespace only. *)
Definition pair_alpha : str * str := (lit "1.1.1 Alpha", lit "one").
Definition number_only : str := lit "2.2.2  ".
Definition pair_gamma : str * str := (lit "3.3.3 Gamma", lit "three").

(** The same for the HTML scraper. *)
Definition sc_pair_alpha : str * str :=
  (lit "Success Criterion 1.1.1 Alpha", lit "one").
Definition sc_number_only : str := lit "Success Criterion 2.2.2  ".
Definition sc_pair_gamma : str * str :=
  (lit "Success Criterion 3.3.3 Gamma", lit "three").

(** A body of whitespace. *)
Definition blank_body : str := [32%N; nl].

(** A success criterion as the page has it: heading, level, text. *)
Definition contrast_header : str :=
  lit "Success Criterion 1.4.3 Contrast (Minimum)".
Definition contrast_text : str :=
  nl :: lit "Text has a contrast ratio of 4.5:1.".
Definition contrast_body : str := nl :: lit "(Level AA)" ++ contrast_text.

(** A body with two markers. *)
Definition two_marker_body : str := lit "body (Level AAA) x (Level A)".

(** A body in which taking the marker out leaves a marker behind. *)
Definition nested_marker_body : str := lit "(Level(Level A) A)".

End Examples.

(** ** Further vocabulary *)

Section FurtherVocabulary.
Import Py Re.

(** Not whitespace. *)
Definition nonspace (c : char) : bool := negb (isspace c).

(** The normal form [clean] produces: single spaces as only whitespace,
    none of them at either end. *)
Definition normal (s : str) : Prop :=
  collapsed s = true /\ starts_space s = false /\
  starts_space (rev s) = false.

(** The text a piece of a scan stands for. *)
Definition piece_text (p : piece) : str :=
  match p with
  | Ch c => [c]
  | Hit m => group0 m
  end.

(** A section number: digit, dot, digit, dot, one or more digits. *)
Definition section_number (nd : char -> bool) (s : str) : Prop :=
  exists d1 d2 ds,
    s = d1 :: 46%N :: d2 :: 46%N :: ds /\
    digit nd d1 = true /\ digit nd d2 = true /\
    ds <> [] /\ Forall (fun c => digit nd c = true) ds.

(** The heading decomposition after its first mark, shared by the two
    scripts. *)
Definition number_label (nd : char -> bool) : regex :=
  [In (digit nd); chr "."; In (digit nd); chr "."; plus (digit nd);
   Mark 1; plus space; Mark 2; star not_newline; Mark 3].

(** The three levels. *)
Definition levels : list str := [lit "A"; lit "AA"; lit "AAA"].

End FurtherVocabulary.

(** * Properties *)

(** ** Lists *)

Section ListFacts.
Context {A B : Type}.
Implicit Types (f : A -> option B) (l : list A).

Lemma omap_cons_eq f a l :
  omap f (a :: l) =
    match f a with
    | Some b => b :: omap f l
    | None => omap f l
    end.
Proof. reflexivity. Qed.

Lemma omap_skip f a l : f a = None -> omap f (a :: l) = omap f l.
Proof. intros Ha. by rewrite omap_cons_eq, Ha. Qed.

Lemma omap_app' f l1 l2 : omap f (l1 ++ l2) = omap f l1 ++ omap f l2.
Proof.
  induction l1 as [|a l1 IH]; [done|].
  rewrite <- app_comm_cons, !omap_cons_eq, IH. by destruct (f a).
Qed.

Lemma length_omap_le f l : length (omap f l) <= length l.
Proof.
  induction l as [|a l IH]; [simpl; lia|].
  rewrite omap_cons_eq. destruct (f a); simpl; lia.
Qed.

Lemma length_filter_le (p : A -> bool) l : length (List.filter p l) <= length l.
Proof.
  induction l as [|a l IH]; simpl; [lia|].
  destruct (p a); simpl; lia.
Qed.

End ListFacts.

(** Filtering pairs and then projecting is projecting and then
    filtering, when the filter looks at the first component only. *)
Lemma omap_map_fst {A B C D : Type} (f : A * B -> option C) (g : C -> D)
    (h : A -> option D) (pairs : list (A * B)) :
  (forall p, option_map g (f p) = h p.1) ->
  map g (omap f pairs) = omap h (map fst pairs).
Proof.
  intros Hfh. induction pairs as [|p pairs IH]; [done|].
  rewrite map_cons, !omap_cons_eq, <- Hfh.
  destruct (f p); simpl; by rewrite IH.
Qed.

(** ** The page scrape of [AccessBoard] *)

Section AccessBoardFacts.
Import Py AccessBoard.

Lemma extract_spec (els : list element) paragraphs el :
  extract els paragraphs el =
    (paragraphs ++ List.filter str_bool (map get_text els),
     match last els with Some e => Some e | None => el end).
Proof.
  revert paragraphs el.
  induction els as [|e rest IH]; intros paragraphs el; simpl.
  - by rewrite app_nil_r.
  - assert (Hlast : match last (e :: rest) with
                    | Some e' => Some e'
                    | None => el
                    end =
                    match last rest with
                    | Some e' => Some e'
                    | None => Some e
                    end).
    { rewrite last_cons. by destruct (last rest). }
    rewrite Hlast.
    destruct (str_bool (get_text e)); rewrite IH; [|done].
    by rewrite <- app_assoc.
Qed.

Lemma build_spec (e : element) (g : nat -> nat) (l : list str) chunks :
  build (Some e) (imap (fun i para => (g i, para)) l) chunks =
    Ok (chunks ++ imap (fun i para => chunk_at e (g i) para) l).
Proof.
  revert g chunks.
  induction l as [|para l IH]; intros g chunks.
  - simpl. by rewrite app_nil_r.
  - rewrite !imap_cons. simpl.
    rewrite (IH (g ∘ S)).
    by rewrite <- app_assoc.
Qed.

Lemma main_spec (els : list element) (e : element) :
  last els = Some e ->
  main els =
    Ok (imap (chunk_at e) (List.filter str_bool (map get_text els))).
Proof.
  intros Hlast. unfold main. rewrite extract_spec, Hlast. simpl.
  unfold enumerate.
  exact (build_spec e (fun i => i) _ []).
Qed.

End AccessBoardFacts.

(** ** The matcher *)

Section MatcherFacts.
Import Py Re.

Context {A : Type}.
Implicit Types (f g : nat -> option A).

Lemma try_down_None f lo n :
  (forall j, lo <= j <= n -> f j = None) -> try_down f lo n = None.
Proof.
  induction n as [|n IH]; intros Hf; simpl.
  - destruct (Nat.ltb_spec 0 lo); [done|].
    by rewrite Hf by lia.
  - destruct (Nat.ltb_spec (S n) lo); [done|].
    rewrite Hf by lia. apply IH. intros j Hj. apply Hf. lia.
Qed.

(** The first success from the top is the result. *)
Lemma try_down_first f lo n j r :
  lo <= j <= n -> f j = Some r ->
  (forall i, j < i <= n -> f i = None) ->
  try_down f lo n = Some r.
Proof.
  induction n as [|n IH]; intros Hj Hr Hf.
  - assert (j = 0) as -> by lia. simpl.
    destruct (Nat.ltb_spec 0 lo); [lia|]. by rewrite Hr.
  - simpl. destruct (Nat.ltb_spec (S n) lo); [lia|].
    destruct (decide (j = S n)) as [->|Hne].
    + by rewrite Hr.
    + rewrite Hf by lia. apply IH; [lia|done|].
      intros i Hi. apply Hf. lia.
Qed.

Lemma try_down_Some f lo n r :
  try_down f lo n = Some r ->
  exists j, lo <= j <= n /\ f j = Some r /\
            forall i, j < i <= n -> f i = None.
Proof.
  induction n as [|n IH]; simpl.
  - destruct (Nat.ltb_spec 0 lo); [done|].
    destruct (f 0) as [r'|] eqn:Hf0; [|done].
    intros [= ->]. exists 0. repeat split; [lia|lia|done|]. intros; lia.
  - destruct (Nat.ltb_spec (S n) lo); [done|].
    destruct (f (S n)) as [r'|] eqn:HfS.
    + intros [= ->]. exists (S n). repeat split; [lia|lia|done|].
      intros; lia.
    + intros Hn. destruct (IH Hn) as (j & Hj & Hr & Hnone).
      exists j. repeat split; [lia|lia|done|].
      intros i Hi. destruct (decide (i = S n)) as [->|]; [done|].
      apply Hnone. lia.
Qed.

Lemma try_down_ext f g lo n :
  (forall j, j <= n -> f j = g j) -> try_down f lo n = try_down g lo n.
Proof.
  induction n as [|n IH]; intros Hfg; simpl.
  - by rewrite Hfg by lia.
  - rewrite Hfg by lia. rewrite IH; [done|].
    intros j Hj. apply Hfg. lia.
Qed.

End MatcherFacts.

Section CountFacts.
Import Py Re.

Lemma count_le_length p hi s : count p hi s <= length s.
Proof.
  revert hi. induction s as [|c s IH]; intros hi; simpl; [lia|].
  destruct (p c); [|lia].
  destruct hi as [[|h]|]; [lia| |].
  - specialize (IH (Some h)). lia.
  - specialize (IH None). lia.
Qed.

Lemma count_cap p h s : count p (Some h) s <= h.
Proof.
  revert h. induction s as [|c s IH]; intros h; simpl; [lia|].
  destruct (p c); [|lia].
  destruct h as [|h]; [lia|]. specialize (IH h). lia.
Qed.

(** The characters counted are in the class. *)
Lemma count_Forall p hi s :
  Forall (fun c => p c = true) (take (count p hi s) s).
Proof.
  revert hi. induction s as [|c s IH]; intros hi; simpl; [constructor|].
  destruct (p c) eqn:Hc; [|constructor].
  destruct hi as [[|h]|]; simpl; [constructor| |]; by constructor.
Qed.

Lemma count_None_app p s t :
  Forall (fun c => p c = true) s ->
  count p None (s ++ t) = length s + count p None t.
Proof.
  induction 1 as [|c s Hc _ IH]; simpl; [done|].
  by rewrite Hc, IH.
Qed.

Lemma drop_count_space s : drop (count space None s) s = lstrip s.
Proof.
  induction s as [|c s IH]; simpl; [done|].
  unfold space in *. destruct (isspace c); simpl; done.
Qed.

End CountFacts.

(** ** The scan, and substitution *)

Section ScanFacts.
Import Py Re.

Lemma try_down_top {A : Type} (f : nat -> option A) lo n r :
  lo <= n -> f n = Some r -> try_down f lo n = Some r.
Proof.
  intros Hlo Hr. apply (try_down_first f lo n n r); [lia|done|].
  intros; lia.
Qed.

Lemma match_at_None prog pos s :
  match_at prog pos s = None <-> run prog s 0 [] = None.
Proof.
  unfold match_at. by destruct (run prog s 0 []) as [[n ms]|].
Qed.

Lemma match_at_run prog pos s n ms :
  run prog s 0 [] = Some (n, ms) ->
  match_at prog pos s =
    Some {| m_start := pos; m_rest := s; m_len := n; m_marks := ms |}.
Proof. unfold match_at. by intros ->. Qed.

(** Skipping [skip] characters is dropping them. *)
Lemma scan_skip prog pos skip s :
  scan prog pos skip s = scan prog (pos + skip) 0 (drop skip s).
Proof.
  revert pos skip.
  induction s as [|c s IH]; intros pos skip.
  - by rewrite drop_nil.
  - destruct skip as [|k].
    + by rewrite Nat.add_0_r.
    + change (scan prog pos (S k) (c :: s)) with (scan prog (S pos) k s).
      rewrite IH. simpl drop. f_equal. lia.
Qed.

Lemma scan_cons prog pos c s :
  scan prog pos 0 (c :: s) =
    match run prog (c :: s) 0 [] with
    | Some (S n, ms) =>
        Hit {| m_start := pos; m_rest := c :: s;
               m_len := S n; m_marks := ms |}
        :: scan prog (S pos + n) 0 (drop n s)
    | _ => Ch c :: scan prog (S pos) 0 s
    end.
Proof.
  simpl. unfold match_at.
  destruct (run prog (c :: s) 0 []) as [[[|n] ms]|]; simpl; [done| |done].
  by rewrite scan_skip.
Qed.

(** What [re.sub] produces does not depend on where the scan is said to
    start. *)
Lemma sub_pos prog repl pos skip s :
  flat_map (sub_piece repl) (scan prog pos skip s) =
  flat_map (sub_piece repl) (scan prog 0 skip s).
Proof.
  revert pos skip.
  induction s as [|c s IH]; intros pos skip; [done|].
  destruct skip as [|k].
  - simpl. unfold match_at.
    destruct (run prog (c :: s) 0 []) as [[[|n] ms]|]; simpl.
    + f_equal. by rewrite IH, (IH 1).
    + f_equal. by rewrite IH, (IH 1).
    + f_equal. by rewrite IH, (IH 1).
  - simpl. by rewrite IH, (IH 1).
Qed.

Lemma re_sub_cons prog repl c s :
  re_sub prog repl (c :: s) =
    match run prog (c :: s) 0 [] with
    | Some (S n, _) => repl ++ re_sub prog repl (drop n s)
    | _ => c :: re_sub prog repl s
    end.
Proof.
  unfold re_sub. rewrite scan_cons.
  destruct (run prog (c :: s) 0 []) as [[[|n] ms]|]; simpl.
  - by rewrite sub_pos.
  - by rewrite sub_pos.
  - by rewrite sub_pos.
Qed.

End ScanFacts.

(** ** Whitespace normalisation *)

Section CleanFacts.
Import Py Re.

Lemma pdf_clean_Some s : WcagPdf.clean (Some s) = Ok (clean_str s).
Proof. reflexivity. Qed.

Lemma html_clean_Some s : WcagHtml.clean (Some s) = clean_str s.
Proof. unfold WcagHtml.clean. by destruct s. Qed.

Lemma run_space s :
  run [plus space] s 0 [] =
    match count space None s with
    | 0 => None
    | S n => Some (S n, [])
    end.
Proof.
  unfold plus. simpl.
  destruct (count space None s) as [|n] eqn:Hn.
  - by apply try_down_None; intros j Hj; lia.
  - by apply try_down_top; [lia|].
Qed.

Lemma squeeze_cons c s :
  squeeze (c :: s) =
    if isspace c then 32%N :: squeeze (lstrip s) else c :: squeeze s.
Proof.
  unfold squeeze. rewrite re_sub_cons, run_space.
  change (count space None (c :: s)) with
    (if isspace c then S (count space None s) else 0).
  destruct (isspace c); [|done].
  by rewrite drop_count_space.
Qed.

Lemma lstrip_length s : length (lstrip s) <= length s.
Proof.
  induction s as [|c s IH]; simpl; [lia|].
  destruct (isspace c); simpl; lia.
Qed.

Lemma starts_space_lstrip s : starts_space (lstrip s) = false.
Proof.
  induction s as [|c s IH]; simpl; [done|].
  destruct (isspace c) eqn:Hc; [done|]. simpl. by rewrite Hc.
Qed.

Lemma lstrip_id s : starts_space s = false -> lstrip s = s.
Proof. destruct s as [|c s]; simpl; [done|]. by intros ->. Qed.

Lemma starts_space_squeeze s : starts_space (squeeze s) = starts_space s.
Proof.
  destruct s as [|c s]; [done|].
  rewrite squeeze_cons. simpl. by destruct (isspace c) eqn:Hc.
Qed.

Lemma collapsed_squeeze s : collapsed (squeeze s) = true.
Proof.
  remember (length s) as n eqn:Hn.
  revert s Hn. induction n as [n IH] using lt_wf_ind. intros s ->.
  destruct s as [|c s]; [done|].
  rewrite squeeze_cons.
  destruct (isspace c) eqn:Hc.
  - change (collapsed (32%N :: squeeze (lstrip s))) with
      (negb (starts_space (squeeze (lstrip s))) &&
         collapsed (squeeze (lstrip s))).
    rewrite starts_space_squeeze, starts_space_lstrip. simpl.
    apply (IH (length (lstrip s))); [|done].
    pose proof (lstrip_length s). simpl. lia.
  - simpl. rewrite Hc. simpl.
    apply (IH (length s)); [simpl; lia|done].
Qed.

Lemma squeeze_collapsed s : collapsed s = true -> squeeze s = s.
Proof.
  induction s as [|c s IH]; [done|].
  simpl. rewrite squeeze_cons.
  destruct (isspace c) eqn:Hc.
  - intros H. apply andb_prop in H as [H1 H2].
    apply andb_prop in H1 as [Hc32 Hs].
    apply N.eqb_eq in Hc32. apply negb_true_iff in Hs.
    rewrite lstrip_id by done. rewrite IH by done. by subst c.
  - simpl. intros H. by rewrite IH.
Qed.

End CleanFacts.

Section StripFacts.
Import Py Re.

Lemma lstrip_split s : exists t, s = t ++ lstrip s /\ blank t.
Proof.
  induction s as [|c s (t & Hs & Ht)]; simpl.
  - exists []. split; [done|constructor].
  - destruct (isspace c) eqn:Hc.
    + exists (c :: t). split; [by rewrite Hs at 1|by constructor].
    + exists []. split; [done|constructor].
Qed.

Lemma rstrip_split s : exists t, s = rstrip s ++ t /\ blank t.
Proof.
  destruct (lstrip_split (rev s)) as (t & Hs & Ht).
  exists (rev t). split.
  - unfold rstrip. rewrite <- rev_app_distr, <- Hs. by rewrite rev_involutive.
  - by apply List.Forall_rev.
Qed.

Lemma lstrip_lstrip s : lstrip (lstrip s) = lstrip s.
Proof. apply lstrip_id, starts_space_lstrip. Qed.

Lemma rstrip_rstrip s : rstrip (rstrip s) = rstrip s.
Proof. unfold rstrip. by rewrite rev_involutive, lstrip_lstrip. Qed.

Lemma starts_space_rstrip s :
  starts_space s = false -> starts_space (rstrip s) = false.
Proof.
  intros Hs. destruct (rstrip_split s) as (t & Heq & _).
  destruct (rstrip s) as [|c r]; [done|].
  rewrite Heq in Hs. exact Hs.
Qed.

Lemma strip_strip s : strip (strip s) = strip s.
Proof.
  unfold strip.
  rewrite (lstrip_id (rstrip (lstrip s))).
  - apply rstrip_rstrip.
  - apply starts_space_rstrip, starts_space_lstrip.
Qed.

Lemma lstrip_blank s : blank s -> lstrip s = [].
Proof. induction 1 as [|c s Hc _ IH]; simpl; [done|]. by rewrite Hc. Qed.

Lemma strip_blank s : blank s -> strip s = [].
Proof. intros Hs. unfold strip. by rewrite lstrip_blank. Qed.

Lemma squeeze_blank s : blank s -> blank (squeeze s).
Proof.
  destruct 1 as [|c s Hc Hs]; [constructor|].
  rewrite squeeze_cons, Hc, lstrip_blank by done.
  by repeat constructor.
Qed.

Lemma clean_str_blank s : blank s -> clean_str s = [].
Proof. intros Hs. by apply strip_blank, squeeze_blank. Qed.

Lemma collapsed_app_r a b : collapsed (a ++ b) = true -> collapsed b = true.
Proof.
  induction a as [|c a IH]; simpl; [done|].
  intros H. apply andb_prop in H as [_ H]. by apply IH.
Qed.

Lemma starts_space_app_l a b :
  starts_space (a ++ b) = false -> starts_space a = false.
Proof. by destruct a. Qed.

Lemma collapsed_app_l a b : collapsed (a ++ b) = true -> collapsed a = true.
Proof.
  induction a as [|c a IH]; simpl; [done|].
  intros H. apply andb_prop in H as [H1 H2].
  rewrite IH by done. rewrite andb_true_r.
  destruct (isspace c); [|done].
  apply andb_prop in H1 as [-> Hs]. simpl.
  apply negb_true_iff in Hs. by rewrite (starts_space_app_l a b).
Qed.

Lemma collapsed_strip s : collapsed s = true -> collapsed (strip s) = true.
Proof.
  intros Hs. unfold strip.
  destruct (lstrip_split s) as (t & Hl & _).
  destruct (rstrip_split (lstrip s)) as (u & Hr & _).
  rewrite Hl in Hs. apply collapsed_app_r in Hs.
  rewrite Hr in Hs. by apply collapsed_app_l in Hs.
Qed.

(** *** Whitespace next to other text *)

Lemma squeeze_nonspace_app u t :
  Forall (fun c => isspace c = false) u -> squeeze (u ++ t) = u ++ squeeze t.
Proof.
  induction 1 as [|c u Hc _ IH]; [done|].
  simpl. by rewrite squeeze_cons, Hc, IH.
Qed.

Lemma lstrip_app_blank x y : blank x -> lstrip (x ++ y) = lstrip y.
Proof. induction 1 as [|c x Hc _ IH]; simpl; [done|]. by rewrite Hc. Qed.

Lemma lstrip_app_nonblank x y : lstrip x <> [] -> lstrip (x ++ y) = lstrip x ++ y.
Proof.
  induction x as [|c x IH]; simpl; [done|].
  destruct (isspace c); [apply IH|done].
Qed.

Lemma rstrip_app_blank a q : blank q -> rstrip (a ++ q) = rstrip a.
Proof.
  intros Hq. unfold rstrip.
  by rewrite rev_app_distr, lstrip_app_blank by (by apply List.Forall_rev).
Qed.

Lemma rstrip_app_nonblank a q : rstrip q <> [] -> rstrip (a ++ q) = a ++ rstrip q.
Proof.
  intros Hq. unfold rstrip in *.
  rewrite rev_app_distr, lstrip_app_nonblank.
  - by rewrite rev_app_distr, rev_involutive.
  - intros H. by rewrite H in Hq.
Qed.

(** [clean] on a string is idempotent. *)
Lemma clean_str_idem s : clean_str (clean_str s) = clean_str s.
Proof.
  unfold clean_str at 1.
  rewrite squeeze_collapsed.
  - apply strip_strip.
  - apply collapsed_strip, collapsed_squeeze.
Qed.

End StripFacts.

(** ** Splitting on a pattern with one group *)

Section SplitFacts.
Import Py Re.

(** With one group, the items after the first alternate between the
    group of a match and the text that follows the match: [zip(it, it)]
    makes one pair per match. *)
Lemma zip_it_split_pieces (ps : list piece) :
  map fst (zip_it (snd (split_pieces 1 ps))) =
    map (fun m => group m 1) (omap hit_of ps).
Proof.
  induction ps as [|[c|m] ps IH]; simpl; [done| |].
  - by destruct (split_pieces 1 ps).
  - destruct (split_pieces 1 ps) as [seg segs]. simpl in *. by rewrite IH.
Qed.

Lemma re_split_cons prog s :
  re_split prog s =
    fst (split_pieces (ngroups prog) (scan prog 0 0 s))
    :: snd (split_pieces (ngroups prog) (scan prog 0 0 s)).
Proof.
  unfold re_split. by destruct (split_pieces _ _).
Qed.

Lemma headers_of_split prog s :
  ngroups prog = 1 ->
  map fst (zip_it (tail (re_split prog s))) =
    map (fun m => group m 1) (re_finditer prog s).
Proof.
  intros Hn. rewrite re_split_cons, Hn. apply zip_it_split_pieces.
Qed.

Lemma length_zip_it_split prog s :
  ngroups prog = 1 ->
  length (zip_it (tail (re_split prog s))) = length (re_finditer prog s).
Proof.
  intros Hn.
  rewrite <- (length_map fst (zip_it _)), headers_of_split by done.
  by rewrite length_map.
Qed.

(** *** Where the matches of a scan lie *)

Lemma run_bound prog s pos ms e ms' :
  run prog s pos ms = Some (e, ms') -> pos <= e <= pos + length s.
Proof.
  revert s pos ms.
  induction prog as [|[p|lo hi p|i] k IH]; intros s pos ms; simpl.
  - intros [= <- <-]. lia.
  - destruct s as [|c s]; [done|].
    destruct (p c); [|done].
    intros H. apply IH in H. simpl. lia.
  - intros H. apply try_down_Some in H as (j & Hj & H & _).
    apply IH in H. rewrite length_drop in H.
    pose proof (count_le_length p hi s). lia.
  - intros H. by apply IH in H.
Qed.

Lemma scan_located prog pos s :
  Forall (located prog pos s) (omap hit_of (scan prog pos 0 s)) /\
  StronglySorted before (omap hit_of (scan prog pos 0 s)).
Proof.
  remember (length s) as n eqn:Hn.
  revert s pos Hn. induction n as [n IH] using lt_wf_ind.
  intros s pos ->.
  destruct s as [|c s]; [split; constructor|].
  rewrite scan_cons.
  destruct (run prog (c :: s) 0 []) as [[[|e] ms]|] eqn:Hrun.
  - destruct (IH (length s) ltac:(simpl; lia) s (S pos) eq_refl)
      as [Hloc Hsort].
    simpl. split; [|done].
    eapply Forall_impl; [exact Hloc|].
    intros m (H1 & H2 & H3 & H4 & H5).
    repeat split; [lia| |done|simpl; lia|done].
    rewrite H2. replace (m_start m - pos) with (S (m_start m - S pos)) by lia.
    done.
  - pose proof (run_bound _ _ _ _ _ _ Hrun) as Hb. simpl in Hb.
    assert (Hlen : length (drop e s) < length (c :: s)).
    { rewrite length_drop. simpl. lia. }
    destruct (IH _ Hlen (drop e s) (S pos + e) eq_refl) as [Hloc Hsort].
    simpl omap. split.
    + constructor.
      * repeat split; simpl; [lia| |lia|lia|done].
        by rewrite Nat.sub_diag.
      * eapply Forall_impl; [exact Hloc|].
        intros m (H1 & H2 & H3 & H4 & H5).
        rewrite length_drop in H4.
        repeat split; [lia| |done|simpl; lia|done].
        rewrite H2, drop_drop.
        replace (m_start m - pos) with (S (e + (m_start m - (S pos + e))))
          by lia.
        done.
    + constructor; [done|].
      eapply Forall_impl; [exact Hloc|].
      intros m (H1 & _). unfold before. simpl. lia.
  - destruct (IH (length s) ltac:(simpl; lia) s (S pos) eq_refl)
      as [Hloc Hsort].
    simpl. split; [|done].
    eapply Forall_impl; [exact Hloc|].
    intros m (H1 & H2 & H3 & H4 & H5).
    repeat split; [lia| |done|simpl; lia|done].
    rewrite H2. replace (m_start m - pos) with (S (m_start m - S pos)) by lia.
    done.
Qed.

Lemma finditer_located prog s :
  Forall (located prog 0 s) (re_finditer prog s) /\
  StronglySorted before (re_finditer prog s).
Proof. apply scan_located. Qed.

End SplitFacts.

(** ** A group around the whole pattern *)

Section GroupFacts.
Import Py Re.

Lemma try_down_close_mark i (f : nat -> option (nat * marks)) lo n :
  try_down (fun j => close_mark i (f j)) lo n = close_mark i (try_down f lo n).
Proof.
  induction n as [|n IH]; simpl.
  - destruct (0 <? lo); [done|]. by destruct (f 0) as [[e ms]|].
  - destruct (S n <? lo); [done|]. by destruct (f (S n)) as [[e ms]|].
Qed.

Lemma run_snoc_mark k i s pos ms :
  run (k ++ [Mark i]) s pos ms = close_mark i (run k s pos ms).
Proof.
  revert s pos ms.
  induction k as [|[p|lo hi p|i'] k IH]; intros s pos ms; simpl.
  - done.
  - destruct s as [|c s]; [done|]. by destruct (p c).
  - rewrite <- try_down_close_mark. apply try_down_ext.
    intros j _. apply IH.
  - apply IH.
Qed.

Lemma run_no_marks k s pos ms e ms' :
  no_marks k = true -> run k s pos ms = Some (e, ms') -> ms' = ms.
Proof.
  revert s pos ms.
  induction k as [|[p|lo hi p|i] k IH]; intros s pos ms; simpl.
  - by intros _ [= _ <-].
  - destruct s as [|c s]; [done|]. destruct (p c); [|done]. apply IH.
  - intros Hk H. apply try_down_Some in H as (j & _ & H & _).
    by apply IH in H.
  - done.
Qed.

(** The marks of a match of [( body )]. *)
Lemma run_whole_group body s e ms :
  no_marks body = true ->
  run (Mark 0 :: body ++ [Mark 1]) s 0 [] = Some (e, ms) ->
  ms = [(1, e); (0, 0)].
Proof.
  intros Hbody. simpl. rewrite run_snoc_mark.
  destruct (run body s 0 [(0, 0)]) as [[e' ms']|] eqn:Hrun; [|done].
  intros [= <- <-]. by rewrite (run_no_marks _ _ _ _ _ _ Hbody Hrun).
Qed.

Lemma group_whole m :
  m_marks m = [(1, m_len m); (0, 0)] -> group m 1 = group0 m.
Proof.
  intros Hm. unfold group, group0. rewrite Hm. simpl.
  unfold slice. by rewrite Nat.sub_0_r.
Qed.

Lemma finditer_group_whole body s :
  no_marks body = true ->
  map (fun m => group m 1) (re_finditer (Mark 0 :: body ++ [Mark 1]) s) =
    map group0 (re_finditer (Mark 0 :: body ++ [Mark 1]) s).
Proof.
  intros Hbody.
  destruct (finditer_located (Mark 0 :: body ++ [Mark 1]) s) as [Hloc _].
  induction Hloc as [|m l (_ & _ & _ & _ & Hrun) _ IH]; [done|].
  simpl. rewrite IH. f_equal.
  apply group_whole. by apply (run_whole_group body (m_rest m)).
Qed.

End GroupFacts.

(** ** Patterns that consume, and marks that are set *)

Section PatternFacts.
Import Py Re.

(** A consuming pattern never matches the empty string: every match of
    the scan is a hit. *)
Lemma run_consuming prog s pos ms e ms' :
  consuming prog = true ->
  run prog s pos ms = Some (e, ms') -> pos < e.
Proof.
  revert s pos ms.
  induction prog as [|[p|lo hi p|i] k IH]; intros s pos ms; simpl.
  - done.
  - intros _. destruct s as [|c s]; [done|]. destruct (p c); [|done].
    intros H. apply run_bound in H. lia.
  - intros Hk H. apply try_down_Some in H as (j & Hj & H & _).
    destruct (Nat.eqb_spec lo 0) as [->|Hlo]; simpl in Hk.
    + apply IH in H; [lia|done].
    + apply run_bound in H. lia.
  - intros Hk H. by apply IH in H.
Qed.

Lemma patterns_consuming (nd : char -> bool) :
  consuming WcagPdf.whitespace = true /\
  consuming (WcagPdf.pattern nd) = true /\
  consuming (WcagPdf.header_re nd) = true /\
  consuming WcagHtml.whitespace = true /\
  consuming (WcagHtml.pattern nd) = true /\
  consuming (WcagHtml.header_re nd) = true /\
  consuming WcagHtml.level_re = true /\
  consuming WcagHtml.level_strip_re = true.
Proof. repeat split. Qed.

Lemma mark_pos_cons i j p ms :
  mark_pos i ms <> None -> mark_pos i ((j, p) :: ms) <> None.
Proof. simpl. by destruct (i =? j). Qed.

(** A match sets every mark of its pattern, and keeps the marks set
    before. *)
Lemma run_sets_marks prog s pos ms e ms' i :
  run prog s pos ms = Some (e, ms') ->
  (mark_pos i ms <> None \/ List.In (Mark i) prog) ->
  mark_pos i ms' <> None.
Proof.
  revert s pos ms.
  induction prog as [|[p|lo hi p|i'] k IH]; intros s pos ms; simpl.
  - intros [= _ <-] [H|[]]. done.
  - destruct s as [|c s]; [done|]. destruct (p c); [|done].
    intros H [Hi|[Hi|Hi]]; [|done|]; eapply IH; eauto.
  - intros H Hi. apply try_down_Some in H as (j & _ & H & _).
    destruct Hi as [Hi|[Hi|Hi]]; [|done|]; eapply IH; eauto.
  - intros H Hi. eapply IH; [exact H|].
    destruct Hi as [Hi|[Hi|Hi]].
    + left. by apply mark_pos_cons.
    + injection Hi as ->. left. simpl. by rewrite Nat.eqb_refl.
    + by right.
Qed.

End PatternFacts.

(** ** The two heading loops *)

Section LoopFacts.
Import Py Re.
Variable nd : char -> bool.

Lemma pdf_loop_spec pairs chunks :
  WcagPdf.loop nd pairs chunks = Ok (chunks ++ omap (pdf_chunk_of nd) pairs).
Proof.
  revert chunks.
  induction pairs as [|[header body] rest IH]; intros chunks.
  - simpl. by rewrite app_nil_r.
  - rewrite omap_cons_eq. unfold pdf_chunk_of at 1. simpl.
    change (strip (re_sub WcagPdf.whitespace (lit " ") header))
      with (clean_str header).
    destruct (re_match (WcagPdf.header_re nd) (clean_str header)) as [m|].
    + rewrite IH. by rewrite <- app_assoc.
    + apply IH.
Qed.

Lemma html_loop_spec pairs chunks :
  WcagHtml.loop nd pairs chunks = chunks ++ omap (html_chunk_of nd) pairs.
Proof.
  revert chunks.
  induction pairs as [|[header body] rest IH]; intros chunks.
  - simpl. by rewrite app_nil_r.
  - rewrite omap_cons_eq. unfold html_chunk_of at 1. simpl.
    rewrite !html_clean_Some.
    destruct (re_match (WcagHtml.header_re nd) (clean_str header)) as [m|].
    + rewrite IH. by rewrite <- app_assoc.
    + apply IH.
Qed.

Lemma pdf_build_spec full_text :
  WcagPdf.build nd full_text =
    Ok (omap (pdf_chunk_of nd)
          (zip_it (tail (re_split (WcagPdf.pattern nd) full_text)))).
Proof.
  unfold WcagPdf.build. rewrite re_split_cons. simpl tail.
  apply pdf_loop_spec.
Qed.

Lemma html_extract_spec full_text :
  WcagHtml.extract_success_criteria nd full_text =
    omap (html_chunk_of nd)
      (zip_it (tail (re_split (WcagHtml.pattern nd) full_text))).
Proof.
  unfold WcagHtml.extract_success_criteria. apply html_loop_spec.
Qed.

Lemma pdf_chunk_headings (pairs : list (str * str)) :
  map (fun c => (WcagPdf.id c, WcagPdf.title c))
    (omap (pdf_chunk_of nd) pairs) =
    omap (pdf_heading nd) (map fst pairs).
Proof.
  apply omap_map_fst. intros [header body].
  unfold pdf_chunk_of, pdf_heading. simpl.
  by destruct (re_match (WcagPdf.header_re nd) (clean_str header)).
Qed.

Lemma html_chunk_headings (pairs : list (str * str)) :
  map (fun c => (WcagHtml.id c, WcagHtml.title c))
    (omap (html_chunk_of nd) pairs) =
    omap (html_heading nd) (map fst pairs).
Proof.
  apply omap_map_fst. intros [header body].
  unfold html_chunk_of, html_heading. simpl.
  by destruct (re_match (WcagHtml.header_re nd) (clean_str header)).
Qed.

Lemma pdf_pattern_groups : ngroups (WcagPdf.pattern nd) = 1.
Proof. reflexivity. Qed.

Lemma html_pattern_groups : ngroups (WcagHtml.pattern nd) = 1.
Proof. reflexivity. Qed.

(** The first items of the pairs are the heading matches, in the order
    of the scan. *)
Lemma pdf_headers full_text :
  map fst (zip_it (tail (re_split (WcagPdf.pattern nd) full_text))) =
    map group0 (re_finditer (WcagPdf.pattern nd) full_text).
Proof.
  rewrite headers_of_split by apply pdf_pattern_groups.
  exact (finditer_group_whole
           [In (digit nd); chr "."; In (digit nd); chr "."; plus (digit nd);
            plus space; plus not_newline] full_text eq_refl).
Qed.

Lemma html_headers full_text :
  map fst (zip_it (tail (re_split (WcagHtml.pattern nd) full_text))) =
    map group0 (re_finditer (WcagHtml.pattern nd) full_text).
Proof.
  rewrite headers_of_split by apply html_pattern_groups.
  exact (finditer_group_whole
           (lits "Success Criterion" ++
            [plus space; In (digit nd); chr "."; In (digit nd); chr ".";
             plus (digit nd); plus space; plus not_newline])
           full_text eq_refl).
Qed.

End LoopFacts.

(** ** The level marker *)

Section MarkerFacts.
Import Py Re.

(** The backtracking commutes with what is done to a result afterwards. *)
Lemma try_down_post {A B : Type} (g : A -> B) (f : nat -> option A) lo n :
  try_down (fun j => option_map g (f j)) lo n = option_map g (try_down f lo n).
Proof.
  induction n as [|n IH]; simpl.
  - destruct (0 <? lo); [done|]. by destruct (f 0).
  - destruct (S n <? lo); [done|]. by destruct (f (S n)).
Qed.

(** Groups do not change what a pattern matches. *)
Lemma run_erase_marks prog s pos ms ms' :
  option_map fst (run (erase_marks prog) s pos ms') =
  option_map fst (run prog s pos ms).
Proof.
  revert s pos ms ms'.
  induction prog as [|[p|lo hi p|i] k IH]; intros s pos ms ms'; simpl.
  - done.
  - destruct s as [|c s]; [done|]. destruct (p c); [|done]. apply IH.
  - rewrite <- !try_down_post. apply try_down_ext. intros j _. apply IH.
  - apply IH.
Qed.

Lemma level_strip_erase :
  WcagHtml.level_strip_re = erase_marks WcagHtml.level_re.
Proof. reflexivity. Qed.

(** *** Literal prefixes *)

Lemma run_literal_app cs k t pos ms :
  run (literal cs ++ k) (cs ++ t) pos ms = run k t (pos + length cs) ms.
Proof.
  revert pos. induction cs as [|c cs IH]; intros pos; simpl.
  - by rewrite Nat.add_0_r.
  - rewrite N.eqb_refl, IH. f_equal. lia.
Qed.

Lemma run_literal_inv cs k s pos ms r :
  run (literal cs ++ k) s pos ms = Some r ->
  exists t, s = cs ++ t /\ run k t (pos + length cs) ms = Some r.
Proof.
  revert s pos. induction cs as [|c cs IH]; intros s pos; simpl.
  - intros H. exists s. by rewrite Nat.add_0_r.
  - destruct s as [|c' s]; [done|].
    destruct (N.eqb_spec c c') as [<-|]; [|done].
    intros H. apply IH in H as (t & -> & H).
    exists t. split; [done|]. rewrite <- H. f_equal. lia.
Qed.

(** *** Counting *)

Lemma count_le_Forall p hi s j :
  j <= count p hi s -> Forall (fun c => p c = true) (take j s).
Proof.
  intros Hj. pose proof (count_Forall p hi s) as H.
  replace (take j s) with (take j (take (count p hi s) s))
    by (rewrite take_take; f_equal; lia).
  by apply Forall_take.
Qed.

Lemma count_cap_repeat p h a k c u :
  p a = true -> p c = false -> k <= h ->
  count p (Some h) (repeat a k ++ c :: u) = k.
Proof.
  intros Ha Hc. revert h.
  induction k as [|k IH]; intros h Hk; simpl.
  - by rewrite Hc.
  - rewrite Ha. destruct h as [|h]; [lia|]. rewrite IH; [done|lia].
Qed.

Lemma Forall_letter_A (l : str) :
  Forall (fun c => (ord "A" =? c)%N = true) l -> l = repeat letter_A (length l).
Proof.
  induction 1 as [|c l Hc _ IH]; simpl; [done|].
  apply N.eqb_eq in Hc. subst c. by rewrite <- IH.
Qed.

(** *** The marker pattern after its literal prefix *)

Lemma level_re_literal :
  WcagHtml.level_re = literal (lit "(Level") ++ level_tail.
Proof. reflexivity. Qed.

Lemma run_level_tail_marker ws k u pos ms :
  ws <> [] -> blank ws -> 1 <= k <= 3 ->
  run level_tail (ws ++ repeat letter_A k ++ 41%N :: u) pos ms =
    Some (S (pos + length ws + k),
          (1, pos + length ws + k) :: (0, pos + length ws) :: ms).
Proof.
  intros Hws Hblank Hk.
  assert (Hlen : 1 <= length ws) by (destruct ws; [done|simpl; lia]).
  unfold level_tail, plus.
  change (run (Repeat 1 None space :: ?k') ?s ?p ?m) with
    (try_down (fun j => run k' (drop j s) (p + j) m) 1 (count space None s)).
  rewrite count_None_app by done.
  assert (Hc0 : count space None (repeat letter_A k ++ 41%N :: u) = 0).
  { destruct k as [|k]; [lia|]. reflexivity. }
  rewrite Hc0, Nat.add_0_r.
  apply try_down_top; [done|].
  rewrite drop_app_length.
  change (run (Mark 0 :: Repeat 1 (Some 3) ?p' :: ?k') ?s ?p ?m) with
    (try_down (fun j => run k' (drop j s) (p + j) ((0, p) :: m)) 1
       (count p' (Some 3) s)).
  rewrite count_cap_repeat by (done || lia).
  apply try_down_top; [lia|].
  rewrite drop_app_length' by (by rewrite repeat_length).
  simpl. done.
Qed.

Lemma run_level_tail_inv t pos ms e ms' :
  run level_tail t pos ms = Some (e, ms') ->
  exists ws k u,
    t = ws ++ repeat letter_A k ++ 41%N :: u /\
    ws <> [] /\ blank ws /\ 1 <= k <= 3 /\
    e = S (pos + length ws + k) /\
    ms' = (1, pos + length ws + k) :: (0, pos + length ws) :: ms.
Proof.
  unfold level_tail, plus.
  change (run (Repeat 1 None space :: ?k') ?s ?p ?m) with
    (try_down (fun j => run k' (drop j s) (p + j) m) 1 (count space None s)).
  intros H. apply try_down_Some in H as (j & Hj & H & _).
  change (run (Mark 0 :: Repeat 1 (Some 3) ?p' :: ?k') ?s ?p ?m) with
    (try_down (fun j => run k' (drop j s) (p + j) ((0, p) :: m)) 1
       (count p' (Some 3) s)) in H.
  apply try_down_Some in H as (i & Hi & H & _).
  change (run [Mark 1; chr ")"] ?s ?p ?m) with
    (match s with
     | c :: _ => if (41 =? c)%N then Some (S p, (1, p) :: m) else None
     | [] => None
     end) in H.
  destruct (drop i (drop j t)) as [|c u] eqn:Hu; [done|].
  destruct (N.eqb_spec 41 c) as [<-|]; [|done].
  injection H as <- <-.
  pose proof (count_le_Forall _ _ _ _ (proj2 Hj)) as Hws.
  pose proof (count_le_Forall _ _ _ _ (proj2 Hi)) as HA.
  pose proof (count_cap (N.eqb (ord "A")) 3 (drop j t)) as Hcap.
  assert (Hjlen : j <= length t).
  { pose proof (count_le_length space None t). lia. }
  assert (Hilen : i <= length (drop j t)).
  { pose proof (count_le_length (N.eqb (ord "A")) (Some 3) (drop j t)). lia. }
  exists (take j t), i, u.
  assert (Hlj : length (take j t) = j) by (rewrite length_take; lia).
  assert (Hli : length (take i (drop j t)) = i) by (rewrite length_take; lia).
  split.
  { rewrite <- (take_drop j t) at 1. f_equal.
    rewrite <- (take_drop i (drop j t)) at 1. rewrite Hu. f_equal.
    rewrite (Forall_letter_A _ HA). by rewrite Hli. }
  split.
  { intros Hnil. rewrite Hnil in Hlj. simpl in Hlj. lia. }
  split; [exact Hws|].
  split; [lia|].
  rewrite Hlj. split; [f_equal; lia|done].
Qed.

End MarkerFacts.

(** ** Searching for the level marker *)

Section MarkerSearch.
Import Py Re.

Lemma marker_app ws k u :
  marker ws k ++ u = lit "(Level" ++ ws ++ repeat letter_A k ++ 41%N :: u.
Proof. unfold marker. by rewrite <- !app_assoc. Qed.

Lemma marker_length ws k : length (marker ws k) = S (6 + length ws + k).
Proof.
  unfold marker. rewrite !length_app, repeat_length. simpl. lia.
Qed.

(** The matcher accepts exactly the strings that start with a marker. *)
Lemma run_level_marker ws k u :
  ws <> [] -> blank ws -> 1 <= k <= 3 ->
  run WcagHtml.level_re (marker ws k ++ u) 0 [] =
    Some (length (marker ws k),
          [(1, 6 + length ws + k); (0, 6 + length ws)]).
Proof.
  intros Hws Hblank Hk.
  rewrite level_re_literal, marker_app, run_literal_app.
  rewrite run_level_tail_marker by done.
  by rewrite marker_length.
Qed.

Lemma run_level_inv s e ms :
  run WcagHtml.level_re s 0 [] = Some (e, ms) ->
  exists ws k u,
    s = marker ws k ++ u /\
    ws <> [] /\ blank ws /\ 1 <= k <= 3 /\
    e = length (marker ws k) /\
    ms = [(1, 6 + length ws + k); (0, 6 + length ws)].
Proof.
  rewrite level_re_literal. intros H.
  apply run_literal_inv in H as (t & -> & H).
  apply run_level_tail_inv in H
    as (ws & k & u & -> & Hws & Hblank & Hk & -> & ->).
  exists ws, k, u. rewrite marker_app, marker_length.
  repeat split; try done; lia.
Qed.

Lemma run_level_is_marker s e ms :
  run WcagHtml.level_re s 0 [] = Some (e, ms) ->
  exists m u, s = m ++ u /\ is_marker m.
Proof.
  intros H. apply run_level_inv in H as (ws & k & u & -> & H1 & H2 & H3 & _).
  exists (marker ws k), u. split; [done|]. by exists ws, k.
Qed.

(** The group of a match is the run of letters. *)
Lemma group_of_marks pos rest len a b :
  group {| m_start := pos; m_rest := rest; m_len := len;
           m_marks := [(1, b); (0, a)] |} 1 = take (b - a) (drop a rest).
Proof. reflexivity. Qed.

Lemma group_level pos ws k u m :
  ws <> [] -> blank ws -> 1 <= k <= 3 ->
  match_at WcagHtml.level_re pos (marker ws k ++ u) = Some m ->
  group m 1 = repeat letter_A k.
Proof.
  intros Hws Hblank Hk. unfold match_at.
  rewrite run_level_marker by done. intros [= <-].
  rewrite group_of_marks.
  assert (Hd : drop (6 + length ws) (marker ws k ++ u) =
               repeat letter_A k ++ 41%N :: u).
  { rewrite marker_app, app_assoc. apply drop_app_length'.
    by rewrite length_app. }
  transitivity (take k (drop (6 + length ws) (marker ws k ++ u))).
  { f_equal; lia. }
  rewrite Hd. apply take_app_length'. by rewrite repeat_length.
Qed.

(** *** Markers inside a string *)

Lemma has_marker_mid a t b : has_marker t -> has_marker (a ++ t ++ b).
Proof.
  intros (pre & m & post & -> & Hm).
  exists (a ++ pre), m, (post ++ b). split; [|done].
  by rewrite <- !app_assoc.
Qed.

Lemma has_marker_app_r a t : has_marker t -> has_marker (a ++ t).
Proof.
  intros H. rewrite <- (app_nil_r t). by apply has_marker_mid.
Qed.

Lemma has_marker_app_l t b : has_marker t -> has_marker (t ++ b).
Proof. intros H. by apply (has_marker_mid [] t b). Qed.

Lemma has_marker_cons c t : has_marker t -> has_marker (c :: t).
Proof. apply (has_marker_app_r [c]). Qed.

Lemma is_marker_has m : is_marker m -> has_marker m.
Proof.
  intros Hm. exists [], m, []. split; [|done]. by rewrite app_nil_r.
Qed.

Lemma isspace_not_paren c : isspace c = true -> c <> 40%N.
Proof. by intros Hc ->. Qed.

(** A marker has one opening parenthesis, its first character. *)
Lemma marker_paren ws k :
  blank ws ->
  exists body, marker ws k = 40%N :: body /\ Forall (fun c => c <> 40%N) body.
Proof.
  intros Hblank.
  exists (lit "Level" ++ ws ++ repeat letter_A k ++ lit ")").
  split; [done|].
  rewrite !Forall_app. repeat split.
  - by repeat constructor.
  - eapply Forall_impl; [exact Hblank|]. apply isspace_not_paren.
  - apply Forall_forall. intros c Hc. apply list_elem_of_In in Hc.
    by apply repeat_spec in Hc as ->.
  - by repeat constructor.
Qed.

(** No match starts before a marker that no marker precedes. *)
Lemma run_level_before c pre m post :
  is_marker m -> ~ has_marker (c :: pre) ->
  run WcagHtml.level_re ((c :: pre) ++ m ++ post) 0 [] = None.
Proof.
  intros (ws & k & -> & Hws & Hblank & Hk) Hno.
  destruct (run WcagHtml.level_re ((c :: pre) ++ marker ws k ++ post) 0 [])
    as [[e ms]|] eqn:Hrun; [|done].
  exfalso.
  apply run_level_inv in Hrun
    as (ws' & k' & u & Heq & Hws' & Hblank' & Hk' & _).
  assert (Hm' : is_marker (marker ws' k')) by (by exists ws', k').
  symmetry in Heq. apply app_eq_app in Heq as [l [[H1 H2]|[H1 H2]]].
  - (* the earlier marker reaches the parenthesis of the later one *)
    destruct l as [|x l].
    + rewrite app_nil_r in H1. apply Hno. rewrite <- H1.
      by apply is_marker_has.
    + destruct (marker_paren ws k Hblank) as (body & Hb & _).
      rewrite Hb in H2. injection H2 as <- _.
      destruct (marker_paren ws' k' Hblank') as (body' & Hb' & Hall).
      rewrite Hb' in H1. injection H1 as _ H1.
      rewrite H1 in Hall. apply Forall_app in Hall as [_ Hall].
      by inversion Hall.
  - (* the earlier marker ends before the later one *)
    apply Hno. rewrite H1. by apply has_marker_app_l, is_marker_has.
Qed.

Lemma search_from_hit prog pos s m :
  match_at prog pos s = Some m -> search_from prog pos s = Some m.
Proof.
  intros Hm. destruct s as [|c s]; unfold search_from; by rewrite Hm.
Qed.

Lemma search_from_miss prog pos c s :
  match_at prog pos (c :: s) = None ->
  search_from prog pos (c :: s) = search_from prog (S pos) s.
Proof.
  intros Hm. unfold search_from at 1. rewrite Hm. done.
Qed.

Lemma search_level_marker pos pre ws k post :
  ws <> [] -> blank ws -> 1 <= k <= 3 -> ~ has_marker pre ->
  exists m,
    search_from WcagHtml.level_re pos (pre ++ marker ws k ++ post) = Some m /\
    group m 1 = repeat letter_A k.
Proof.
  intros Hws Hblank Hk. revert pos.
  induction pre as [|c pre IH]; intros pos Hno.
  - destruct (match_at WcagHtml.level_re pos (marker ws k ++ post))
      as [m|] eqn:Hm.
    + exists m. split; [|by apply (group_level pos ws k post)].
      by apply search_from_hit.
    + apply match_at_None in Hm. by rewrite run_level_marker in Hm.
  - destruct (IH (S pos)) as (m & Hs & Hg).
    { intros H. by apply Hno, has_marker_cons. }
    exists m. split; [|done].
    change ((c :: pre) ++ marker ws k ++ post)
      with (c :: (pre ++ marker ws k ++ post)).
    rewrite search_from_miss; [done|].
    apply match_at_None.
    apply (run_level_before c pre (marker ws k) post); [|done].
    by exists ws, k.
Qed.

(** Without a marker there is no match anywhere. *)
Lemma run_level_no_marker a s :
  ~ has_marker (a ++ s) -> run WcagHtml.level_re s 0 [] = None.
Proof.
  intros Hno.
  destruct (run WcagHtml.level_re s 0 []) as [[e ms]|] eqn:Hrun; [|done].
  exfalso. apply Hno.
  apply run_level_is_marker in Hrun as (m & u & -> & Hm).
  by apply has_marker_app_r, has_marker_app_l, is_marker_has.
Qed.

Lemma search_level_no_marker pos s :
  ~ has_marker s -> search_from WcagHtml.level_re pos s = None.
Proof.
  revert pos. induction s as [|c s IH]; intros pos Hno.
  - reflexivity.
  - rewrite search_from_miss.
    + apply IH. intros H. by apply Hno, has_marker_cons.
    + by apply match_at_None, (run_level_no_marker []).
Qed.

End MarkerSearch.

(** ** Removing the level marker *)

Section MarkerRemoval.
Import Py Re.

Lemma re_sub_hit prog repl s e ms :
  run prog s 0 [] = Some (e, ms) -> 0 < e ->
  re_sub prog repl s = repl ++ re_sub prog repl (drop e s).
Proof.
  intros Hrun He. destruct s as [|c s].
  - apply run_bound in Hrun. simpl in Hrun. lia.
  - rewrite re_sub_cons, Hrun. destruct e as [|n]; [lia|]. done.
Qed.

Lemma re_sub_miss prog repl c s :
  run prog (c :: s) 0 [] = None ->
  re_sub prog repl (c :: s) = c :: re_sub prog repl s.
Proof. intros Hrun. by rewrite re_sub_cons, Hrun. Qed.

Lemma run_level_strip s :
  option_map fst (run WcagHtml.level_strip_re s 0 []) =
  option_map fst (run WcagHtml.level_re s 0 []).
Proof. rewrite level_strip_erase. apply run_erase_marks. Qed.

Lemma run_level_strip_None s :
  run WcagHtml.level_re s 0 [] = None ->
  run WcagHtml.level_strip_re s 0 [] = None.
Proof.
  intros H. pose proof (run_level_strip s) as Heq. rewrite H in Heq.
  by destruct (run WcagHtml.level_strip_re s 0 []).
Qed.

Lemma run_level_strip_Some s e ms :
  run WcagHtml.level_re s 0 [] = Some (e, ms) ->
  exists ms', run WcagHtml.level_strip_re s 0 [] = Some (e, ms').
Proof.
  intros H. pose proof (run_level_strip s) as Heq. rewrite H in Heq.
  destruct (run WcagHtml.level_strip_re s 0 []) as [[e' ms']|]; [|done].
  injection Heq as ->. by exists ms'.
Qed.

Lemma re_sub_no_marker s :
  ~ has_marker s -> re_sub WcagHtml.level_strip_re [] s = s.
Proof.
  induction s as [|c s IH]; intros Hno; [done|].
  rewrite re_sub_miss.
  - rewrite IH; [done|]. intros H. by apply Hno, has_marker_cons.
  - by apply run_level_strip_None, (run_level_no_marker []).
Qed.

(** *** Stripping around a marker *)

Lemma lstrip_app a t :
  t <> [] -> starts_space t = false -> lstrip (a ++ t) = lstrip a ++ t.
Proof.
  intros Ht Hs. induction a as [|c a IH]; simpl.
  - by apply lstrip_id.
  - by destruct (isspace c).
Qed.

Lemma rstrip_app t b :
  t <> [] -> starts_space (rev t) = false -> rstrip (t ++ b) = t ++ rstrip b.
Proof.
  intros Ht Hs. unfold rstrip.
  rewrite rev_app_distr, lstrip_app; [|by destruct t using rev_ind;
    [|rewrite rev_app_distr]|done].
  by rewrite rev_app_distr, rev_involutive.
Qed.

Lemma marker_starts ws k u : starts_space (marker ws k ++ u) = false.
Proof. reflexivity. Qed.

Lemma marker_ends a ws k : starts_space (rev (a ++ marker ws k)) = false.
Proof.
  unfold marker. rewrite !app_assoc, rev_app_distr. reflexivity.
Qed.

Lemma strip_around_marker pre ws k post :
  strip (pre ++ marker ws k ++ post) =
    lstrip pre ++ marker ws k ++ rstrip post.
Proof.
  unfold strip.
  rewrite lstrip_app by (done || apply marker_starts).
  rewrite app_assoc, rstrip_app.
  - by rewrite <- app_assoc.
  - by destruct (lstrip pre).
  - apply marker_ends.
Qed.

Lemma has_marker_lstrip s : has_marker (lstrip s) -> has_marker s.
Proof.
  intros H. destruct (lstrip_split s) as (t & Hs & _).
  rewrite Hs. by apply has_marker_app_r.
Qed.

Lemma has_marker_rstrip s : has_marker (rstrip s) -> has_marker s.
Proof.
  intros H. destruct (rstrip_split s) as (t & Hs & _).
  rewrite Hs. by apply has_marker_app_l.
Qed.

Lemma has_marker_strip s : has_marker (strip s) -> has_marker s.
Proof. intros H. by apply has_marker_lstrip, has_marker_rstrip. Qed.

Lemma has_marker_strip_inv s : has_marker s -> has_marker (strip s).
Proof.
  intros (pre & m & post & -> & ws & k & -> & Hm).
  rewrite strip_around_marker.
  exists (lstrip pre), (marker ws k), (rstrip post).
  split; [done|]. by exists ws, k.
Qed.

End MarkerRemoval.

(** ** Cleaning does not make a marker *)

Section MarkerClean.
Import Py Re.

Lemma squeeze_head_nonspace d q y :
  squeeze y = d :: q -> isspace d = false ->
  exists y', y = d :: y' /\ squeeze y' = q.
Proof.
  destruct y as [|c s]; [done|].
  rewrite squeeze_cons. destruct (isspace c) eqn:Hc.
  - by intros [= <- _].
  - intros [= -> <-] _. by exists s.
Qed.

Lemma squeeze_head_space d q y :
  squeeze y = d :: q -> isspace d = true ->
  exists w y',
    y = w ++ y' /\ w <> [] /\ blank w /\
    starts_space y' = false /\ squeeze y' = q.
Proof.
  destruct y as [|c s]; [done|].
  rewrite squeeze_cons. destruct (isspace c) eqn:Hc.
  - intros [= <- <-] _.
    destruct (lstrip_split s) as (t & Hs & Ht).
    exists (c :: t), (lstrip s). repeat split.
    + simpl. by rewrite <- Hs.
    + done.
    + by constructor.
    + apply starts_space_lstrip.
  - intros [= -> _] Hd. by rewrite Hd in Hc.
Qed.

Lemma squeeze_nonspace_prefix u q y :
  Forall (fun c => isspace c = false) u ->
  squeeze y = u ++ q ->
  exists y', y = u ++ y' /\ squeeze y' = q.
Proof.
  intros Hu. revert y.
  induction Hu as [|d u Hd _ IH]; intros y Hy.
  - by exists y.
  - apply squeeze_head_nonspace in Hy as (y' & -> & Hy'); [|done].
    apply IH in Hy' as (y'' & -> & Hy'').
    by exists y''.
Qed.

Lemma squeeze_inv_app a d q y :
  isspace d = false ->
  squeeze y = a ++ d :: q ->
  exists y1 y2, y = y1 ++ d :: y2 /\ squeeze y2 = q.
Proof.
  intros Hd. revert y.
  induction a as [|x a IH]; intros y Hy.
  - apply squeeze_head_nonspace in Hy as (y' & -> & Hy'); [|done].
    by exists [], y'.
  - destruct (isspace x) eqn:Hx.
    + apply squeeze_head_space in Hy as (w & y' & -> & _ & _ & _ & Hy');
        [|done].
      apply IH in Hy' as (y1 & y2 & -> & Hy2).
      exists (w ++ y1), y2. by rewrite <- app_assoc.
    + apply squeeze_head_nonspace in Hy as (y' & -> & Hy'); [|done].
      apply IH in Hy' as (y1 & y2 & -> & Hy2).
      by exists (x :: y1), y2.
Qed.

Lemma has_marker_squeeze y : has_marker (squeeze y) -> has_marker y.
Proof.
  intros (pre & m & post & Hy & ws & k & -> & Hws & Hblank & Hk).
  rewrite marker_app in Hy.
  change (lit "(Level" ++ ?t) with (40%N :: lit "Level" ++ t) in Hy.
  apply squeeze_inv_app in Hy as (y1 & y2 & -> & Hy); [|done].
  apply squeeze_nonspace_prefix in Hy as (y3 & -> & Hy);
    [|by repeat constructor].
  destruct Hblank as [|w0 ws Hw0 Hblank]; [done|].
  apply squeeze_head_space in Hy
    as (w & y4 & -> & Hw & Hwblank & Hstart & Hy); [|done].
  destruct Hblank as [|w1 ws Hw1 Hblank].
  2:{ rewrite <- starts_space_squeeze, Hy in Hstart. simpl in Hstart.
      by rewrite Hw1 in Hstart. }
  simpl in Hy.
  change (repeat letter_A k ++ 41%N :: post)
    with (repeat letter_A k ++ [41%N] ++ post) in Hy.
  rewrite app_assoc in Hy.
  apply squeeze_nonspace_prefix in Hy as (y5 & -> & _).
  2:{ apply Forall_app. split; [|by repeat constructor].
      apply Forall_forall. intros c Hc. apply list_elem_of_In in Hc.
      by apply repeat_spec in Hc as ->. }
  exists y1, (marker w k), y5. split.
  - unfold marker. by rewrite <- !app_assoc.
  - by exists w, k.
Qed.

Lemma has_marker_clean_str y : has_marker (clean_str y) -> has_marker y.
Proof. intros H. by apply has_marker_squeeze, has_marker_strip. Qed.

(** A search finds a marker when there is one: [re.search] decides
    [has_marker]. *)
Lemma has_marker_search pos s :
  has_marker s -> search_from WcagHtml.level_re pos s <> None.
Proof.
  intros (pre & m & post & -> & ws & k & -> & Hws & Hblank & Hk).
  revert pos. induction pre as [|c pre IH]; intros pos.
  - simpl app. rewrite (search_from_hit _ _ _
      {| m_start := pos; m_rest := marker ws k ++ post;
         m_len := length (marker ws k);
         m_marks := [(1, 6 + length ws + k); (0, 6 + length ws)] |});
      [done|].
    by apply match_at_run, run_level_marker.
  - change ((c :: pre) ++ marker ws k ++ post)
      with (c :: (pre ++ marker ws k ++ post)).
    destruct (match_at WcagHtml.level_re pos
                (c :: pre ++ marker ws k ++ post)) as [m|] eqn:Hm.
    + by rewrite (search_from_hit _ _ _ m).
    + rewrite search_from_miss by done. apply IH.
Qed.

Lemma no_marker_search s :
  re_search WcagHtml.level_re s = None -> ~ has_marker s.
Proof. intros Hs H. by apply (has_marker_search 0) in H. Qed.

End MarkerClean.

(** ** The removal pass on a body with several markers *)

Section MarkerPass.
Import Py Re.

Lemma with_markers_nil g0 : with_markers g0 [] = g0.
Proof. unfold with_markers. simpl. by rewrite app_nil_r. Qed.

Lemma without_markers_nil g0 : without_markers g0 [] = g0.
Proof. unfold without_markers. simpl. by rewrite app_nil_r. Qed.

Lemma with_markers_cons g0 m g rest :
  with_markers g0 ((m, g) :: rest) = g0 ++ m ++ with_markers g rest.
Proof. unfold with_markers. simpl. by rewrite <- app_assoc. Qed.

Lemma without_markers_cons g0 m g rest :
  without_markers g0 ((m, g) :: rest) = g0 ++ without_markers g rest.
Proof. reflexivity. Qed.

(** The pass takes out every marker of a text cut at all its markers. *)
Lemma re_sub_markers g0 rest :
  ~ has_marker g0 ->
  Forall (fun p => is_marker p.1) rest ->
  Forall (fun p => ~ has_marker p.2) rest ->
  re_sub WcagHtml.level_strip_re [] (with_markers g0 rest) =
    without_markers g0 rest.
Proof.
  intros Hg0 Hm Hg. revert g0 Hg0.
  induction rest as [|[m g] rest IH]; intros g0 Hg0.
  - rewrite with_markers_nil, without_markers_nil.
    by apply re_sub_no_marker.
  - apply Forall_cons in Hm as [Hm Hms]. apply Forall_cons in Hg as [Hg Hgs].
    simpl in Hm, Hg.
    rewrite with_markers_cons, without_markers_cons.
    induction g0 as [|c g0 IHg].
    + destruct Hm as (ws & k & -> & Hws & Hblank & Hk).
      pose proof (run_level_marker ws k (with_markers g rest) Hws Hblank Hk)
        as Hrun.
      apply run_level_strip_Some in Hrun as (ms' & Hrun).
      simpl app.
      rewrite (re_sub_hit _ _ _ _ _ Hrun) by (rewrite marker_length; lia).
      rewrite drop_app_length. simpl. by apply IH.
    + change ((c :: g0) ++ m ++ with_markers g rest)
        with (c :: (g0 ++ m ++ with_markers g rest)).
      rewrite re_sub_miss.
      * simpl. f_equal. apply IHg. intros H. by apply Hg0, has_marker_cons.
      * apply run_level_strip_None.
        by apply (run_level_before c g0 m (with_markers g rest)).
Qed.

(** *** Stripping a text cut at markers *)

Lemma lstrip_with_markers g0 rest :
  Forall (fun p => is_marker p.1) rest ->
  lstrip (with_markers g0 rest) = with_markers (lstrip g0) rest.
Proof.
  destruct rest as [|[m g] rest]; intros Hm.
  - by rewrite !with_markers_nil.
  - apply Forall_cons in Hm as [(ws & k & Hmk & _) _]. cbn [fst] in Hmk. subst m.
    rewrite !with_markers_cons.
    apply lstrip_app; [by rewrite marker_app|apply marker_starts].
Qed.

Lemma rstrip_with_markers g0 rest :
  Forall (fun p => is_marker p.1) rest ->
  exists g0' rest' w,
    rstrip (with_markers g0 rest) = with_markers g0' rest' /\
    without_markers g0 rest = without_markers g0' rest' ++ w /\
    blank w /\
    Forall (fun p => is_marker p.1) rest' /\
    (~ has_marker g0 -> ~ has_marker g0') /\
    (Forall (fun p => ~ has_marker p.2) rest ->
     Forall (fun p => ~ has_marker p.2) rest').
Proof.
  intros Hm. revert g0.
  induction rest as [|[m g] rest IH]; intros g0.
  - destruct (rstrip_split g0) as (w & Hsplit & Hw).
    exists (rstrip g0), [], w.
    rewrite !with_markers_nil, !without_markers_nil.
    repeat split; try done.
    intros Hno H. by apply Hno, has_marker_rstrip.
  - apply Forall_cons in Hm as [Hmk Hms].
    destruct (IH Hms g) as (g' & rest' & w & Hr & Hw & Hblank & Hms' & Hg' & Hgs').
    exists g0, ((m, g') :: rest'), w.
    rewrite !with_markers_cons, !without_markers_cons.
    split; [|split; [|split; [|split; [|split]]]].
    + destruct Hmk as (ws & k & Hmk & _). cbn [fst] in Hmk. subst m.
      rewrite app_assoc, rstrip_app.
      * by rewrite Hr, <- app_assoc.
      * by destruct g0.
      * apply marker_ends.
    + by rewrite Hw, app_assoc.
    + done.
    + by constructor.
    + done.
    + intros Hall. apply Forall_cons in Hall as [Hg Hgs].
      constructor; [by apply Hg'|by apply Hgs'].
Qed.

(** *** Whitespace around a text does not change what [clean] returns *)

Lemma lstrip_squeeze y : lstrip (squeeze y) = squeeze (lstrip y).
Proof.
  destruct y as [|c y]; [done|].
  rewrite squeeze_cons. simpl. destruct (isspace c) eqn:Hc.
  - change (lstrip (32%N :: ?q)) with (lstrip q).
    apply lstrip_id. by rewrite starts_space_squeeze, starts_space_lstrip.
  - simpl. by rewrite Hc, squeeze_cons, Hc.
Qed.

Lemma clean_str_blank_l w y : blank w -> clean_str (w ++ y) = clean_str y.
Proof.
  intros Hw. unfold clean_str, strip.
  by rewrite !lstrip_squeeze, lstrip_app_blank.
Qed.

Lemma squeeze_app_blank x w :
  blank w -> exists b, blank b /\ squeeze (x ++ w) = squeeze x ++ b.
Proof.
  intros Hw. remember (length x) as n eqn:Hn.
  revert x Hn. induction n as [n IH] using lt_wf_ind. intros x ->.
  destruct x as [|c x].
  - exists (squeeze w). split; [by apply squeeze_blank|done].
  - change ((c :: x) ++ w) with (c :: (x ++ w)).
    rewrite !squeeze_cons. destruct (isspace c) eqn:Hc.
    + destruct (lstrip x) as [|d r] eqn:Hl.
      * exists []. split; [constructor|].
        rewrite app_nil_r. do 2 f_equal.
        destruct (lstrip_split x) as (t & Hx & Ht).
        rewrite Hl, app_nil_r in Hx. subst t.
        rewrite lstrip_blank; [done|]. by apply Forall_app.
      * rewrite lstrip_app_nonblank by (by rewrite Hl).
        destruct (IH (length (lstrip x))) with (x := lstrip x)
          as (b & Hb & Heq); [|done|].
        { pose proof (lstrip_length x). simpl. lia. }
        exists b. split; [done|]. rewrite <- Hl. by rewrite Heq.
    + destruct (IH (length x)) with (x := x) as (b & Hb & Heq);
        [simpl; lia|done|].
      exists b. split; [done|]. by rewrite Heq.
Qed.

Lemma strip_app_blank q b : blank b -> strip (q ++ b) = strip q.
Proof.
  intros Hb. unfold strip.
  destruct (lstrip q) as [|d r] eqn:Hl.
  - destruct (lstrip_split q) as (t & Hq & Ht).
    rewrite Hl, app_nil_r in Hq. subst t.
    rewrite lstrip_blank; [done|]. by apply Forall_app.
  - rewrite lstrip_app_nonblank by (by rewrite Hl).
    rewrite Hl. by apply rstrip_app_blank.
Qed.

Lemma clean_str_blank_r x w : blank w -> clean_str (x ++ w) = clean_str x.
Proof.
  intros Hw. unfold clean_str.
  destruct (squeeze_app_blank x w Hw) as (b & Hb & ->).
  by apply strip_app_blank.
Qed.

(** *** Cleaning keeps a marker *)

Lemma squeeze_app a b :
  starts_space b = false -> squeeze (a ++ b) = squeeze a ++ squeeze b.
Proof.
  intros Hb. remember (length a) as n eqn:Hn.
  revert a Hn. induction n as [n IH] using lt_wf_ind. intros a ->.
  destruct a as [|c a]; [done|].
  change ((c :: a) ++ b) with (c :: (a ++ b)).
  rewrite !squeeze_cons. destruct (isspace c) eqn:Hc.
  - destruct b as [|d b]; [by rewrite !app_nil_r|].
    rewrite lstrip_app by done.
    rewrite (IH (length (lstrip a))) with (a := lstrip a); [done| |done].
    pose proof (lstrip_length a). simpl. lia.
  - by rewrite (IH (length a)) with (a := a); [|simpl; lia|].
Qed.

Lemma squeeze_marker ws k post :
  ws <> [] -> blank ws -> 1 <= k <= 3 ->
  squeeze (marker ws k ++ post) = marker [32%N] k ++ squeeze post.
Proof.
  intros Hws Hblank Hk.
  rewrite !marker_app.
  rewrite squeeze_nonspace_app by (by repeat constructor).
  destruct Hblank as [|w0 ws Hw0 Hblank]; [done|].
  simpl app. rewrite squeeze_cons, Hw0, lstrip_app_blank by done.
  rewrite lstrip_id by (destruct k; [lia|done]).
  change (repeat letter_A k ++ 41%N :: post)
    with (repeat letter_A k ++ [41%N] ++ post).
  rewrite app_assoc, squeeze_nonspace_app.
  - by rewrite <- app_assoc.
  - apply Forall_app. split; [|by repeat constructor].
    apply Forall_forall. intros c Hc. apply list_elem_of_In in Hc.
    by apply repeat_spec in Hc as ->.
Qed.

Lemma has_marker_clean_str_inv y : has_marker y -> has_marker (clean_str y).
Proof.
  intros (pre & m & post & -> & ws & k & -> & Hws & Hblank & Hk).
  apply has_marker_strip_inv.
  rewrite squeeze_app by apply marker_starts.
  rewrite squeeze_marker by done.
  exists (squeeze pre), (marker [32%N] k), (squeeze post).
  split; [done|].
  exists [32%N], k. repeat split; [done|by repeat constructor|lia|lia].
Qed.

(** *** Every text can be cut at its markers *)

Lemma no_marker_nil : ~ has_marker [].
Proof. by apply no_marker_search. Qed.

Lemma no_marker_cons c s t :
  run WcagHtml.level_re (c :: s ++ t) 0 [] = None ->
  ~ has_marker s -> ~ has_marker (c :: s).
Proof.
  intros Hrun Hs (pre & m & post & Heq & Hm).
  destruct pre as [|c' pre].
  - destruct Hm as (ws & k & -> & Hws & Hblank & Hk).
    change ([] ++ marker ws k ++ post) with (marker ws k ++ post) in Heq.
    change (c :: s ++ t) with ((c :: s) ++ t) in Hrun.
    rewrite Heq, <- app_assoc in Hrun.
    by rewrite run_level_marker in Hrun.
  - injection Heq as -> ->. apply Hs. by exists pre, m, post.
Qed.

Lemma markers_cut s :
  exists g0 rest,
    s = with_markers g0 rest /\
    Forall (fun p => is_marker p.1) rest /\
    ~ has_marker g0 /\
    Forall (fun p => ~ has_marker p.2) rest.
Proof.
  remember (length s) as n eqn:Hn.
  revert s Hn. induction n as [n IH] using lt_wf_ind. intros s ->.
  destruct s as [|c s].
  - exists [], []. repeat split; [constructor|apply no_marker_nil|constructor].
  - destruct (run WcagHtml.level_re (c :: s) 0 []) as [[e ms]|] eqn:Hrun.
    + apply run_level_inv in Hrun
        as (ws & k & u & Heq & Hws & Hblank & Hk & _).
      destruct (IH (length u)) with (s := u)
        as (g & rest & Hu & Hms & Hg & Hgs); [|done|].
      { apply (f_equal (@length char)) in Heq.
        rewrite length_app, marker_length in Heq.
        unfold str, char in *. lia. }
      exists [], ((marker ws k, g) :: rest).
      rewrite with_markers_cons, <- Hu.
      split; [done|]. split; [|split].
      * constructor; [by exists ws, k|done].
      * apply no_marker_nil.
      * by constructor.
    + destruct (IH (length s)) with (s := s)
        as (g & rest & Hs & Hms & Hg & Hgs); [simpl; lia|done|].
      exists (c :: g), rest.
      split; [|split; [done|split; [|done]]].
      * unfold with_markers in *. simpl. by rewrite <- Hs.
      * apply (no_marker_cons c g (concat (map (fun p => p.1 ++ p.2) rest)));
          [|done].
        unfold with_markers in Hs. by rewrite <- Hs.
Qed.

(** *** The text of a chunk *)

Lemma has_marker_gap g0 rest :
  ~ has_marker (without_markers g0 rest) ->
  ~ has_marker g0 /\ Forall (fun p => ~ has_marker p.2) rest.
Proof.
  revert g0. induction rest as [|[m g] rest IH]; intros g0 Hno.
  - rewrite without_markers_nil in Hno. split; [done|constructor].
  - rewrite without_markers_cons in Hno.
    split; [intros H; by apply Hno, has_marker_app_l|].
    destruct (IH g) as [Hg Hgs].
    { intros H. by apply Hno, has_marker_app_r. }
    by constructor.
Qed.

(** The text the loop stores for a body cut at all its markers. *)
Lemma clean_sub_strip_markers g0 rest :
  Forall (fun p => is_marker p.1) rest ->
  ~ has_marker g0 ->
  Forall (fun p => ~ has_marker p.2) rest ->
  clean_str (re_sub WcagHtml.level_strip_re [] (strip (with_markers g0 rest)))
    = clean_str (without_markers g0 rest).
Proof.
  intros Hms Hg0 Hgs. unfold strip.
  rewrite lstrip_with_markers by done.
  destruct (rstrip_with_markers (lstrip g0) rest Hms)
    as (g' & rest' & w & -> & Hw & Hblank & Hms' & Hg' & Hgs').
  rewrite re_sub_markers; [|apply Hg'|done|by apply Hgs'].
  2:{ intros H. by apply Hg0, has_marker_lstrip. }
  destruct (lstrip_split g0) as (t & Ht & Htblank).
  transitivity (clean_str (without_markers (lstrip g0) rest)).
  - by rewrite Hw, clean_str_blank_r.
  - rewrite <- (clean_str_blank_l t) by done.
    unfold without_markers. by rewrite app_assoc, <- Ht.
Qed.

End MarkerPass.

(** ** The scripts on small texts *)

Section SmallTexts.
Import Py Re.
Variable nd : char -> bool.

(** A heading made of a section number and whitespace, at the end of the
    text, is matched by the heading pattern and then rejected by the
    decomposition: two matches, one chunk. *)
Example pdf_trailing_number :
  WcagPdf.build nd
    (lit "1.1.1 Alpha" ++ nl :: lit "one" ++ nl :: lit "2.2.2  ") =
    Ok [ {| WcagPdf.id := lit "1.1.1";
            WcagPdf.section := lit "1.1.1";
            WcagPdf.title := lit "Alpha";
            WcagPdf.text := lit "one";
            WcagPdf.source := lit "WCAG 2.2 PDF" |} ] /\
  map group0
    (re_finditer (WcagPdf.pattern nd)
       (lit "1.1.1 Alpha" ++ nl :: lit "one" ++ nl :: lit "2.2.2  ")) =
    [lit "1.1.1 Alpha"; lit "2.2.2  "].
Proof. split; vm_compute; reflexivity. Qed.

(** Two headings on consecutive lines: the first chunk has an empty
    text. *)
Example pdf_adjacent_headings :
  WcagPdf.build nd
    (lit "1.1.1 Alpha" ++ nl :: lit "1.2.1 Beta" ++ nl :: lit "body") =
    Ok [ {| WcagPdf.id := lit "1.1.1";
            WcagPdf.section := lit "1.1.1";
            WcagPdf.title := lit "Alpha";
            WcagPdf.text := [];
            WcagPdf.source := lit "WCAG 2.2 PDF" |};
         {| WcagPdf.id := lit "1.2.1";
            WcagPdf.section := lit "1.2.1";
            WcagPdf.title := lit "Beta";
            WcagPdf.text := lit "body";
            WcagPdf.source := lit "WCAG 2.2 PDF" |} ].
Proof. vm_compute. reflexivity. Qed.

(** The whitespace of a heading may span lines: the number, a tab and a
    line break, and the next line form one heading. *)
Example pdf_split_across_lines :
  re_split (WcagPdf.pattern nd)
    (lit "ab 1.1.1" ++ 9%N :: nl :: lit " x" ++ nl :: lit "1.2.3 4.5.6 y") =
    [ lit "ab "; lit "1.1.1" ++ 9%N :: nl :: lit " x"; [nl];
      lit "1.2.3 4.5.6 y"; [] ].
Proof. vm_compute. reflexivity. Qed.

(** The level is the one of the first marker, and every marker of the
    pass is taken out. *)
Example html_two_markers :
  map html_summary
    (WcagHtml.extract_success_criteria nd
       (lit "Success Criterion 1.2.1 Beta" ++ nl ::
        lit "body (Level AAA) x (Level A)")) =
    [ {| s_id := lit "1.2.1";
         s_title := lit "Beta";
         s_level := Some (lit "AAA");
         s_text := lit "body x" |} ].
Proof. vm_compute. reflexivity. Qed.

End SmallTexts.

(** * The statements of the specification *)

Section Claims.
Import Py Re.

(** C1, as stated, fails: on the example text neither heading variant
    produces the chunks of the example.  The PDF scraper, whose heading
    pattern is the one named, has no level and keeps the marker in the
    text; the HTML scraper finds no heading at all. *)
Lemma example_chunks_not_produced :
  ~ (exists cs, WcagPdf.build ascii_digits_only example_text = Ok cs /\
                map pdf_summary cs = example_chunks) /\
  map html_summary
    (WcagHtml.extract_success_criteria ascii_digits_only example_text)
    <> example_chunks.
Proof.
  split.
  - intros (cs & Hcs & Hsum).
    vm_compute in Hcs. injection Hcs as <-. vm_compute in Hsum. discriminate.
  - vm_compute. discriminate.
Qed.

(** C1, amended: on the example text the PDF scraper yields two chunks,
    in order, with ids 1.1.1 and 1.2.1, titles Non-text Content and
    Audio-only, no level, and texts that still end with the level
    marker; the HTML scraper yields no chunk on that text, and yields
    the chunks of the example, levels A and AA and texts without the
    marker, once each heading starts with Success Criterion. *)
Theorem example_text_chunks (nd : char -> bool) :
  WcagPdf.build nd example_text =
    Ok [ {| WcagPdf.id := lit "1.1.1";
            WcagPdf.section := lit "1.1.1";
            WcagPdf.title := lit "Non-text Content";
            WcagPdf.text := lit "All content has alt text. (Level A)";
            WcagPdf.source := lit "WCAG 2.2 PDF" |};
         {| WcagPdf.id := lit "1.2.1";
            WcagPdf.section := lit "1.2.1";
            WcagPdf.title := lit "Audio-only";
            WcagPdf.text := lit "Provide transcript. (Level AA)";
            WcagPdf.source := lit "WCAG 2.2 PDF" |} ] /\
  WcagPdf.main nd [example_text] = WcagPdf.build nd example_text /\
  WcagHtml.extract_success_criteria nd example_text = [] /\
  map html_summary (WcagHtml.extract_success_criteria nd example_text_sc)
    = example_chunks.
Proof. repeat split; vm_compute; reflexivity. Qed.

(** C7: on the elements (h1, Title), (p, empty), (p, Body text) the page
    scrape yields exactly two chunks, the empty element being dropped,
    with the indices 0 and 1 of the emitted chunks in their ids. *)
Theorem example_elements_chunks :
  AccessBoard.main example_elements =
    Ok [ {| AccessBoard.id := lit "access-board-ict-0";
            AccessBoard.source := AccessBoard.url;
            AccessBoard.text := lit "Title";
            AccessBoard.type := lit "p" |};
         {| AccessBoard.id := lit "access-board-ict-1";
            AccessBoard.source := AccessBoard.url;
            AccessBoard.text := lit "Body text";
            AccessBoard.type := lit "p" |} ].
Proof. vm_compute. reflexivity. Qed.

Lemma imap_chunk_at_text e (g : nat -> nat) (l : list str) :
  map AccessBoard.text (imap (fun i para => chunk_at e (g i) para) l) = l.
Proof.
  revert g. induction l as [|para l IH]; intros g; [done|].
  rewrite imap_cons. simpl. f_equal. apply (IH (g ∘ S)).
Qed.

Lemma imap_chunk_at_type e (g : nat -> nat) (l : list str) :
  Forall (fun c => AccessBoard.type c = AccessBoard.name e)
    (imap (fun i para => chunk_at e (g i) para) l).
Proof.
  revert g. induction l as [|para l IH]; intros g; [constructor|].
  rewrite imap_cons. constructor; [done|]. apply (IH (g ∘ S)).
Qed.

(** C2: when some element has text, the page scrape emits at least one
    chunk, one per non-empty text in order, and the type of every chunk
    is the tag name of the last element of the extraction loop, whatever
    element the text of the chunk came from. *)
Theorem flat_type_is_last_tag (els : list AccessBoard.element) :
  (exists e, List.In e els /\ AccessBoard.get_text e <> []) ->
  exists e_last cs,
    last els = Some e_last /\
    AccessBoard.main els = Ok cs /\
    cs <> [] /\
    map AccessBoard.text cs =
      List.filter AccessBoard.str_bool (map AccessBoard.get_text els) /\
    Forall (fun c => AccessBoard.type c = AccessBoard.name e_last) cs.
Proof.
  intros (e & He & Htext).
  destruct (last els) as [e_last|] eqn:Hlast.
  2:{ apply last_None in Hlast. subst els. destruct He. }
  exists e_last, (imap (chunk_at e_last)
                    (List.filter AccessBoard.str_bool
                       (map AccessBoard.get_text els))).
  split; [done|]. split; [by apply main_spec|].
  assert (Hin : List.In (AccessBoard.get_text e)
                  (List.filter AccessBoard.str_bool
                     (map AccessBoard.get_text els))).
  { apply filter_In. split; [by apply in_map|].
    by destruct (AccessBoard.get_text e). }
  repeat split.
  - intros Hnil. apply (f_equal length) in Hnil.
    rewrite length_imap in Hnil.
    destruct (List.filter _ _); [destruct Hin|done].
  - apply (imap_chunk_at_text e_last (fun i => i)).
  - apply (imap_chunk_at_type e_last (fun i => i)).
Qed.

Lemma flat_type_is_last_tag_witness :
  exists e_last cs,
    last scope_elements = Some e_last /\
    AccessBoard.main scope_elements = Ok cs /\
    cs <> [] /\
    map AccessBoard.text cs =
      List.filter AccessBoard.str_bool
        (map AccessBoard.get_text scope_elements) /\
    Forall (fun c => AccessBoard.type c = AccessBoard.name e_last) cs.
Proof.
  apply flat_type_is_last_tag.
  exists (element_of "h2" "Scope").
  split; [left; reflexivity|discriminate].
Defined.

(** C10: the [clean] of the HTML scraper accepts a missing text and
    returns the empty string for it, where the [clean] of the PDF scraper
    raises. *)
Theorem clean_of_None :
  WcagHtml.clean None = [] /\ WcagPdf.clean None = Raise TypeError.
Proof. split; reflexivity. Qed.

(** C8: [clean] is idempotent, in the PDF scraper (where it returns a
    string for every string) and in the HTML scraper (for every string
    and for a missing text). *)
Theorem clean_idempotent (x : str) (text : option str) :
  (exists y, WcagPdf.clean (Some x) = Ok y /\ WcagPdf.clean (Some y) = Ok y) /\
  WcagHtml.clean (Some (WcagHtml.clean text)) = WcagHtml.clean text.
Proof.
  split.
  - exists (clean_str x). rewrite !pdf_clean_Some.
    by rewrite clean_str_idem.
  - rewrite html_clean_Some. destruct text as [s|].
    + rewrite html_clean_Some. apply clean_str_idem.
    + reflexivity.
Qed.

(** C5: the heading variants emit at most one chunk per match of the
    heading pattern in the text, and the page scrape at most one chunk
    per element. *)
Theorem chunk_count_bounded (nd : char -> bool) (full_text : str)
    (els : list AccessBoard.element) :
  (exists cs,
     WcagPdf.build nd full_text = Ok cs /\
     length cs <= length (re_finditer (WcagPdf.pattern nd) full_text)) /\
  length (WcagHtml.extract_success_criteria nd full_text)
    <= length (re_finditer (WcagHtml.pattern nd) full_text) /\
  (exists cs, AccessBoard.main els = Ok cs /\ length cs <= length els).
Proof.
  split; [|split].
  - eexists. split; [apply pdf_build_spec|].
    etrans; [apply length_omap_le|].
    by rewrite length_zip_it_split by apply pdf_pattern_groups.
  - rewrite html_extract_spec.
    etrans; [apply length_omap_le|].
    by rewrite length_zip_it_split by apply html_pattern_groups.
  - destruct (last els) as [e|] eqn:Hlast.
    + eexists. split; [by apply main_spec|].
      rewrite length_imap.
      etrans; [apply length_filter_le|]. by rewrite length_map.
    + apply last_None in Hlast. subst els. exists []. split; [done|].
      simpl. lia.
Qed.

(** C6: the identifiers and titles of the chunks are, in order and with
    repetitions, the successful decompositions of the heading matches
    of the scan of the text, and these matches lie in the text one after
    the other, from left to right. *)
Theorem chunk_order (nd : char -> bool) (full_text : str) :
  (exists cs,
     WcagPdf.build nd full_text = Ok cs /\
     map (fun c => (WcagPdf.id c, WcagPdf.title c)) cs =
       omap (pdf_heading nd)
         (map group0 (re_finditer (WcagPdf.pattern nd) full_text))) /\
  map (fun c => (WcagHtml.id c, WcagHtml.title c))
      (WcagHtml.extract_success_criteria nd full_text) =
    omap (html_heading nd)
      (map group0 (re_finditer (WcagHtml.pattern nd) full_text)) /\
  (forall prog,
     StronglySorted before (re_finditer prog full_text) /\
     Forall (fun m => 0 < m_len m /\
                      m_start m + m_len m <= length full_text /\
                      group0 m =
                        take (m_len m) (drop (m_start m) full_text))
       (re_finditer prog full_text)).
Proof.
  split; [|split].
  - eexists. split; [apply pdf_build_spec|].
    by rewrite pdf_chunk_headings, pdf_headers.
  - by rewrite html_extract_spec, html_chunk_headings, html_headers.
  - intros prog. destruct (finditer_located prog full_text) as [Hloc Hsort].
    split; [done|].
    eapply Forall_impl; [exact Hloc|].
    intros m (_ & Hrest & Hlen & Hend & _).
    repeat split; [done|done|].
    unfold group0. by rewrite Hrest, Nat.sub_0_r.
Qed.

(** C3: a pair whose cleaned heading the decomposition rule rejects adds
    no chunk and raises nothing, and the chunks of the pairs after it are
    the chunks these pairs yield on their own, whatever pair stands in
    its place. *)
Theorem malformed_heading_skipped (nd : char -> bool)
    (pre post : list (str * str)) (header body : str) :
  (forall header_txt,
     WcagPdf.clean (Some header) = Ok header_txt ->
     re_match (WcagPdf.header_re nd) header_txt = None ->
     exists cs_pre cs_post,
       WcagPdf.loop nd pre [] = Ok cs_pre /\
       WcagPdf.loop nd post [] = Ok cs_post /\
       WcagPdf.loop nd [(header, body)] [] = Ok [] /\
       WcagPdf.loop nd (pre ++ (header, body) :: post) [] =
         Ok (cs_pre ++ cs_post) /\
       forall header' body',
         exists cs_mid,
           WcagPdf.loop nd [(header', body')] [] = Ok cs_mid /\
           WcagPdf.loop nd (pre ++ (header', body') :: post) [] =
             Ok (cs_pre ++ cs_mid ++ cs_post)) /\
  (re_match (WcagHtml.header_re nd) (WcagHtml.clean (Some header)) = None ->
   WcagHtml.loop nd [(header, body)] [] = [] /\
   WcagHtml.loop nd (pre ++ (header, body) :: post) [] =
     WcagHtml.loop nd pre [] ++ WcagHtml.loop nd post [] /\
   forall header' body',
     WcagHtml.loop nd (pre ++ (header', body') :: post) [] =
       WcagHtml.loop nd pre [] ++ WcagHtml.loop nd [(header', body')] [] ++
       WcagHtml.loop nd post []).
Proof.
  split.
  - intros header_txt Hclean Hm.
    rewrite pdf_clean_Some in Hclean. injection Hclean as <-.
    assert (Hskip : pdf_chunk_of nd (header, body) = None).
    { unfold pdf_chunk_of. simpl. by rewrite Hm. }
    exists (omap (pdf_chunk_of nd) pre), (omap (pdf_chunk_of nd) post).
    rewrite !pdf_loop_spec, !app_nil_l.
    rewrite omap_app', !omap_skip by done.
    do 4 (split; [done|]).
    intros header' body'. exists (omap (pdf_chunk_of nd) [(header', body')]).
    rewrite !pdf_loop_spec, !app_nil_l.
    split; [done|]. by rewrite omap_app', (omap_app' _ [(header', body')] post).
  - rewrite html_clean_Some. intros Hm.
    assert (Hskip : html_chunk_of nd (header, body) = None).
    { unfold html_chunk_of. simpl. by rewrite Hm. }
    rewrite !html_loop_spec, !app_nil_l.
    rewrite omap_app', !omap_skip by done.
    do 2 (split; [done|]).
    intros header' body'. rewrite !html_loop_spec, !app_nil_l.
    by rewrite omap_app', (omap_app' _ [(header', body')] post).
Qed.

Lemma malformed_heading_skipped_witness :
  (exists cs_pre cs_post,
     WcagPdf.loop ascii_digits_only [pair_alpha] [] = Ok cs_pre /\
     WcagPdf.loop ascii_digits_only [pair_gamma] [] = Ok cs_post /\
     WcagPdf.loop ascii_digits_only [(number_only, lit "two")] [] = Ok [] /\
     WcagPdf.loop ascii_digits_only
       ([pair_alpha] ++ (number_only, lit "two") :: [pair_gamma]) [] =
       Ok (cs_pre ++ cs_post) /\
     forall header' body',
       exists cs_mid,
         WcagPdf.loop ascii_digits_only [(header', body')] [] = Ok cs_mid /\
         WcagPdf.loop ascii_digits_only
           ([pair_alpha] ++ (header', body') :: [pair_gamma]) [] =
           Ok (cs_pre ++ cs_mid ++ cs_post)) /\
  (WcagHtml.loop ascii_digits_only [(sc_number_only, lit "two")] [] = [] /\
   WcagHtml.loop ascii_digits_only
     ([sc_pair_alpha] ++ (sc_number_only, lit "two") :: [sc_pair_gamma]) [] =
     WcagHtml.loop ascii_digits_only [sc_pair_alpha] [] ++
     WcagHtml.loop ascii_digits_only [sc_pair_gamma] [] /\
   forall header' body',
     WcagHtml.loop ascii_digits_only
       ([sc_pair_alpha] ++ (header', body') :: [sc_pair_gamma]) [] =
       WcagHtml.loop ascii_digits_only [sc_pair_alpha] [] ++
       WcagHtml.loop ascii_digits_only [(header', body')] [] ++
       WcagHtml.loop ascii_digits_only [sc_pair_gamma] []).
Proof.
  split.
  - apply (proj1 (malformed_heading_skipped ascii_digits_only
                    [pair_alpha] [pair_gamma] number_only (lit "two"))
             (lit "2.2.2"));
      reflexivity.
  - apply (proj2 (malformed_heading_skipped ascii_digits_only
                    [sc_pair_alpha] [sc_pair_gamma] sc_number_only
                    (lit "two")));
      reflexivity.
Defined.

(** C9: a pair with an empty or whitespace-only body whose heading
    decomposes still yields a chunk, with the empty string as text (and,
    in the HTML scraper, no level). *)
Theorem blank_body_chunk (nd : char -> bool) (header body : str)
    (rest : list (str * str)) :
  Forall (fun c => isspace c = true) body ->
  (forall header_txt m chunks,
     WcagPdf.clean (Some header) = Ok header_txt ->
     re_match (WcagPdf.header_re nd) header_txt = Some m ->
     exists c,
       WcagPdf.loop nd ((header, body) :: rest) chunks =
         WcagPdf.loop nd rest (chunks ++ [c]) /\
       WcagPdf.loop nd [(header, body)] [] = Ok [c] /\
       WcagPdf.id c = group m 1 /\
       WcagPdf.title c = group m 2 /\
       WcagPdf.text c = []) /\
  (forall m chunks,
     re_match (WcagHtml.header_re nd) (WcagHtml.clean (Some header)) = Some m ->
     exists c,
       WcagHtml.loop nd ((header, body) :: rest) chunks =
         WcagHtml.loop nd rest (chunks ++ [c]) /\
       WcagHtml.loop nd [(header, body)] [] = [c] /\
       WcagHtml.id c = group m 1 /\
       WcagHtml.title c = group m 2 /\
       WcagHtml.level c = None /\
       WcagHtml.text c = []).
Proof.
  intros Hblank. split.
  - intros header_txt m chunks Hclean Hm.
    rewrite pdf_clean_Some in Hclean. injection Hclean as <-.
    eexists. simpl.
    change (strip (re_sub WcagPdf.whitespace (lit " ") header))
      with (clean_str header).
    change (strip (re_sub WcagPdf.whitespace (lit " ") body))
      with (clean_str body).
    rewrite Hm, (clean_str_blank body Hblank).
    repeat split; reflexivity.
  - intros m chunks Hm. rewrite html_clean_Some in Hm.
    eexists. simpl. rewrite !html_clean_Some, Hm.
    rewrite (strip_blank body Hblank).
    repeat split; reflexivity.
Qed.

Lemma blank_body_chunk_witness :
  Forall (fun c => isspace c = true) blank_body /\
  (exists c,
     WcagPdf.loop ascii_digits_only [(pair_alpha.1, blank_body)] [] = Ok [c] /\
     WcagPdf.id c = lit "1.1.1" /\
     WcagPdf.title c = lit "Alpha" /\
     WcagPdf.text c = []) /\
  (exists c,
     WcagHtml.loop ascii_digits_only [(sc_pair_alpha.1, blank_body)] [] = [c] /\
     WcagHtml.id c = lit "1.1.1" /\
     WcagHtml.title c = lit "Alpha" /\
     WcagHtml.level c = None /\
     WcagHtml.text c = []).
Proof.
  assert (Hblank : Forall (fun c => isspace c = true) blank_body)
    by (repeat constructor).
  split; [exact Hblank|]. split.
  - destruct (proj1 (blank_body_chunk ascii_digits_only
                       pair_alpha.1 blank_body [] Hblank)
                pair_alpha.1 _ [] eq_refl eq_refl)
      as (c & _ & Hloop & Hid & Htitle & Htext).
    exists c. repeat split; assumption.
  - destruct (proj2 (blank_body_chunk ascii_digits_only
                       sc_pair_alpha.1 blank_body [] Hblank) _ [] eq_refl)
      as (c & _ & Hloop & Hid & Htitle & Hlevel & Htext).
    exists c. repeat split; assumption.
Defined.

(** C4, as stated, fails: a chunk is emitted for a body that contains a
    marker, and its cleaned text still contains one. *)
Lemma level_marker_left_in_text :
  ~ (forall header body c,
       WcagHtml.loop ascii_digits_only [(header, body)] [] = [c] ->
       has_marker body -> ~ has_marker (WcagHtml.text c)).
Proof.
  intros Hclaim.
  apply (Hclaim (lit "Success Criterion 1.4.3 Contrast") nested_marker_body
           {| WcagHtml.id := lit "1.4.3";
              WcagHtml.section := lit "1.4.3";
              WcagHtml.title := lit "Contrast";
              WcagHtml.level := Some (lit "A");
              WcagHtml.text := lit "(Level A)";
              WcagHtml.source := WcagHtml.WCAG_URL |}).
  - reflexivity.
  - exists (lit "(Level"), (marker [32%N] 1), (lit " A)").
    split; [reflexivity|].
    exists [32%N], 1. repeat split; [done|by repeat constructor|lia|lia].
  - exists [], (marker [32%N] 1), [].
    split; [reflexivity|].
    exists [32%N], 1. repeat split; [done|by repeat constructor|lia|lia].
Qed.

Lemma html_loop_single nd header body c :
  WcagHtml.loop nd [(header, body)] [] = [c] ->
  WcagHtml.level c =
    match re_search WcagHtml.level_re (strip body) with
    | Some lm => Some (group lm 1)
    | None => None
    end /\
  WcagHtml.text c =
    clean_str (re_sub WcagHtml.level_strip_re [] (strip body)).
Proof.
  rewrite html_loop_spec, app_nil_l, omap_cons_eq.
  unfold html_chunk_of. simpl.
  destruct (re_match (WcagHtml.header_re nd) (clean_str header)) as [m|];
    [|done].
  by intros [= <-].
Qed.

(** C4, amended: the level of an emitted chunk is the run of letters of
    the leftmost marker of the body.  Every body can be cut at all its
    markers, one or several, and for every such cut the text of the chunk
    is the cleaned body with these markers taken out; it contains a
    marker exactly when the text around the markers, joined, contains
    one, and so is free of markers whenever that joined text is.  For a
    body without a marker the level is absent and the text is the
    cleaned body. *)
Theorem level_extraction (nd : char -> bool) (header body : str)
    (c : WcagHtml.chunk) :
  WcagHtml.loop nd [(header, body)] [] = [c] ->
  (forall pre ws k post,
     body = pre ++ marker ws k ++ post ->
     ws <> [] -> Forall (fun a => isspace a = true) ws -> 1 <= k <= 3 ->
     ~ has_marker pre ->
     WcagHtml.level c = Some (repeat letter_A k)) /\
  (exists g0 rest,
     body = with_markers g0 rest /\
     Forall (fun p => is_marker p.1) rest /\
     ~ has_marker g0 /\
     Forall (fun p => ~ has_marker p.2) rest) /\
  (forall g0 rest,
     body = with_markers g0 rest ->
     Forall (fun p => is_marker p.1) rest ->
     ~ has_marker g0 ->
     Forall (fun p => ~ has_marker p.2) rest ->
     WcagHtml.text c = WcagHtml.clean (Some (without_markers g0 rest)) /\
     (has_marker (WcagHtml.text c) <->
      has_marker (without_markers g0 rest))) /\
  (forall g0 rest,
     body = with_markers g0 rest ->
     Forall (fun p => is_marker p.1) rest ->
     ~ has_marker (without_markers g0 rest) ->
     ~ has_marker (WcagHtml.text c)) /\
  (~ has_marker body ->
   WcagHtml.level c = None /\
   WcagHtml.text c = WcagHtml.clean (Some (strip body))).
Proof.
  intros Hloop. apply html_loop_single in Hloop as [Hlevel Htext].
  assert (Hcut : forall g0 rest,
             body = with_markers g0 rest ->
             Forall (fun p => is_marker p.1) rest ->
             ~ has_marker g0 ->
             Forall (fun p => ~ has_marker p.2) rest ->
             WcagHtml.text c = clean_str (without_markers g0 rest)).
  { intros g0 rest -> Hms Hg0 Hgs.
    rewrite Htext. by apply clean_sub_strip_markers. }
  split; [|split; [apply markers_cut|split; [|split]]].
  - intros pre ws k post -> Hws Hblank Hk Hpre.
    rewrite Hlevel, strip_around_marker.
    destruct (search_level_marker 0 (lstrip pre) ws k (rstrip post))
      as (m & Hs & Hg); try done.
    { intros H. by apply Hpre, has_marker_lstrip. }
    unfold re_search. by rewrite Hs, Hg.
  - intros g0 rest Hbody Hms Hg0 Hgs.
    rewrite (Hcut g0 rest) by done. rewrite html_clean_Some.
    split; [done|]. split.
    + apply has_marker_clean_str.
    + apply has_marker_clean_str_inv.
  - intros g0 rest Hbody Hms Hno.
    destruct (has_marker_gap g0 rest Hno) as [Hg0 Hgs].
    rewrite (Hcut g0 rest) by done.
    intros H. by apply Hno, has_marker_clean_str.
  - intros Hno.
    assert (Hno' : ~ has_marker (strip body)).
    { intros H. by apply Hno, has_marker_strip. }
    split.
    + rewrite Hlevel. unfold re_search.
      by rewrite search_level_no_marker.
    + by rewrite Htext, re_sub_no_marker, html_clean_Some.
Qed.

Lemma level_extraction_witness :
  exists c,
    WcagHtml.loop ascii_digits_only [(contrast_header, two_marker_body)] [] =
      [c] /\
    WcagHtml.level c = Some (lit "AAA") /\
    WcagHtml.text c = lit "body x" /\
    ~ has_marker (WcagHtml.text c).
Proof.
  assert (Hms : Forall (fun p : str * str => is_marker p.1)
                  [(marker [32%N] 3, lit " x "); (marker [32%N] 1, [])]).
  { repeat constructor.
    - exists [32%N], 3.
      repeat split; [discriminate|repeat constructor|lia|lia].
    - exists [32%N], 1.
      repeat split; [discriminate|repeat constructor|lia|lia]. }
  eexists. split; [reflexivity|].
  destruct (level_extraction ascii_digits_only contrast_header
              two_marker_body _ eq_refl) as (Hlevel & _ & Htext & Hfree & _).
  split; [|split].
  - apply (Hlevel (lit "body ") [32%N] 3 (lit " x (Level A)")).
    + reflexivity.
    + discriminate.
    + repeat constructor.
    + lia.
    + apply no_marker_search. reflexivity.
  - apply (Htext (lit "body ")
             [(marker [32%N] 3, lit " x "); (marker [32%N] 1, [])]).
    + reflexivity.
    + exact Hms.
    + apply no_marker_search. reflexivity.
    + repeat constructor; apply no_marker_search; reflexivity.
  - apply (Hfree (lit "body ")
             [(marker [32%N] 3, lit " x "); (marker [32%N] 1, [])]).
    + reflexivity.
    + exact Hms.
    + apply no_marker_search. reflexivity.
Defined.

End Claims.

(** * Further properties of the scripts *)

(** ** What [clean] returns *)

Section CleanMore.
Import Py Re.

Lemma collapsed_spaces s :
  collapsed s = true -> Forall (fun c => isspace c = true -> c = 32%N) s.
Proof.
  induction s as [|c s IH]; simpl; [constructor|].
  intros H. apply andb_prop in H as [Hc Hs].
  constructor; [|by apply IH].
  intros Hsp. rewrite Hsp in Hc. apply andb_prop in Hc as [Hc _].
  by apply N.eqb_eq in Hc.
Qed.

Lemma strip_starts s : starts_space (strip s) = false.
Proof. apply starts_space_rstrip, starts_space_lstrip. Qed.

Lemma strip_ends s : starts_space (rev (strip s)) = false.
Proof.
  unfold strip, rstrip. rewrite rev_involutive. apply starts_space_lstrip.
Qed.

Lemma clean_str_normal s : normal (clean_str s).
Proof.
  repeat split.
  - apply collapsed_strip, collapsed_squeeze.
  - apply strip_starts.
  - apply strip_ends.
Qed.

Lemma rstrip_id s : starts_space (rev s) = false -> rstrip s = s.
Proof.
  intros Hs. unfold rstrip. by rewrite lstrip_id, rev_involutive.
Qed.

Lemma normal_clean_str s : normal s -> clean_str s = s.
Proof.
  intros (Hc & Hl & Hr). unfold clean_str, strip.
  rewrite squeeze_collapsed, lstrip_id by done. by apply rstrip_id.
Qed.

(** *** The characters that are not whitespace *)

Lemma filter_nonspace_blank s : blank s -> List.filter nonspace s = [].
Proof.
  induction 1 as [|c s Hc _ IH]; simpl; [done|].
  unfold nonspace at 1. by rewrite Hc.
Qed.

Lemma filter_nonspace_lstrip s :
  List.filter nonspace (lstrip s) = List.filter nonspace s.
Proof.
  destruct (lstrip_split s) as (t & Hs & Ht).
  rewrite Hs at 2. by rewrite List.filter_app, (filter_nonspace_blank t).
Qed.

Lemma filter_nonspace_rstrip s :
  List.filter nonspace (rstrip s) = List.filter nonspace s.
Proof.
  destruct (rstrip_split s) as (t & Hs & Ht).
  rewrite Hs at 2.
  by rewrite List.filter_app, (filter_nonspace_blank t), app_nil_r.
Qed.

Lemma filter_nonspace_squeeze s :
  List.filter nonspace (squeeze s) = List.filter nonspace s.
Proof.
  remember (length s) as n eqn:Hn.
  revert s Hn. induction n as [n IH] using lt_wf_ind. intros s ->.
  destruct s as [|c s]; [done|].
  rewrite squeeze_cons.
  destruct (isspace c) eqn:Hc.
  - assert (Hn : nonspace c = false) by (unfold nonspace; by rewrite Hc).
    cbn [List.filter]. rewrite Hn.
    change (nonspace 32%N) with false. cbv iota.
    rewrite (IH (length (lstrip s))); [apply filter_nonspace_lstrip| |done].
    pose proof (lstrip_length s). simpl. lia.
  - assert (Hn : nonspace c = true) by (unfold nonspace; by rewrite Hc).
    cbn [List.filter]. rewrite Hn.
    f_equal. apply (IH (length s)); [simpl; lia|done].
Qed.

Lemma rstrip_length s : length (rstrip s) <= length s.
Proof.
  unfold rstrip. rewrite length_rev.
  etrans; [apply lstrip_length|]. by rewrite length_rev.
Qed.

Lemma squeeze_length s : length (squeeze s) <= length s.
Proof.
  remember (length s) as n eqn:Hn.
  revert s Hn. induction n as [n IH] using lt_wf_ind. intros s ->.
  destruct s as [|c s]; [done|].
  rewrite squeeze_cons.
  destruct (isspace c) eqn:Hc; simpl.
  - pose proof (lstrip_length s).
    pose proof (IH (length (lstrip s)) ltac:(simpl; lia) _ eq_refl). lia.
  - pose proof (IH (length s) ltac:(simpl; lia) _ eq_refl). lia.
Qed.

Lemma clean_str_length s : length (clean_str s) <= length s.
Proof.
  unfold clean_str, strip.
  etrans; [apply rstrip_length|].
  etrans; [apply lstrip_length|]. apply squeeze_length.
Qed.

Lemma clean_str_nonspace s :
  List.filter nonspace (clean_str s) = List.filter nonspace s.
Proof.
  unfold clean_str, strip.
  by rewrite filter_nonspace_rstrip, filter_nonspace_lstrip,
    filter_nonspace_squeeze.
Qed.

(** X1: whatever string it is given, [clean] returns a string in normal
    form, in both scripts: its only whitespace characters are single
    spaces, never two in a row, and none at either end. *)
Theorem clean_returns_normal (x : str) (text : option str) :
  (exists y,
     WcagPdf.clean (Some x) = Ok y /\ normal y /\
     Forall (fun c => isspace c = true -> c = 32%N) y) /\
  normal (WcagHtml.clean text) /\
  Forall (fun c => isspace c = true -> c = 32%N) (WcagHtml.clean text).
Proof.
  assert (H : forall s, normal (clean_str s) /\
                Forall (fun c => isspace c = true -> c = 32%N) (clean_str s)).
  { intros s. split; [apply clean_str_normal|].
    apply collapsed_spaces, clean_str_normal. }
  split.
  - exists (clean_str x). split; [apply pdf_clean_Some|apply H].
  - destruct text as [s|].
    + rewrite html_clean_Some. apply H.
    + apply (H []).
Qed.

(** X2: [clean] neither drops nor changes nor reorders a character that
    is not whitespace, and its result is never longer than its
    argument. *)
Theorem clean_keeps_nonspace (x : str) :
  (exists y,
     WcagPdf.clean (Some x) = Ok y /\
     List.filter nonspace y = List.filter nonspace x /\
     length y <= length x) /\
  List.filter nonspace (WcagHtml.clean (Some x)) = List.filter nonspace x /\
  length (WcagHtml.clean (Some x)) <= length x.
Proof.
  split.
  - exists (clean_str x).
    split; [apply pdf_clean_Some|].
    split; [apply clean_str_nonspace|apply clean_str_length].
  - rewrite html_clean_Some.
    split; [apply clean_str_nonspace|apply clean_str_length].
Qed.

(** X3: the strings [clean] leaves unchanged are exactly the strings in
    normal form. *)
Theorem clean_fixed_points (x : str) :
  (WcagPdf.clean (Some x) = Ok x <-> normal x) /\
  (WcagHtml.clean (Some x) = x <-> normal x).
Proof.
  rewrite pdf_clean_Some, html_clean_Some.
  assert (H : clean_str x = x <-> normal x).
  { split.
    - intros <-. apply clean_str_normal.
    - apply normal_clean_str. }
  split; [|exact H].
  split.
  - intros [= Hx]. by apply H.
  - intros Hx. f_equal. by apply H.
Qed.

End CleanMore.

(** ** What the heading split keeps *)

Section SplitMore.
Import Py Re.

(** The pieces of a scan, put together, are the text. *)
Lemma scan_concat prog pos s :
  concat (map piece_text (scan prog pos 0 s)) = s.
Proof.
  remember (length s) as n eqn:Hn.
  revert s pos Hn. induction n as [n IH] using lt_wf_ind.
  intros s pos ->.
  destruct s as [|c s]; [done|].
  rewrite scan_cons.
  destruct (run prog (c :: s) 0 []) as [[[|e] ms]|] eqn:Hrun.
  - simpl. f_equal. apply (IH (length s)); [simpl; lia|done].
  - apply run_bound in Hrun. simpl in Hrun.
    rewrite map_cons, concat_cons.
    rewrite (IH (length (drop e s))); [| |done].
    + unfold piece_text, group0. simpl. f_equal. apply take_drop.
    + rewrite length_drop. simpl. lia.
  - simpl. f_equal. apply (IH (length s)); [simpl; lia|done].
Qed.

Lemma split_pieces_concat n ps :
  Forall (fun m => concat (groups n m) = group0 m) (omap hit_of ps) ->
  (split_pieces n ps).1 ++ concat (split_pieces n ps).2 =
    concat (map piece_text ps).
Proof.
  induction ps as [|[c|m] ps IH]; intros Hall; [done| |].
  - simpl. destruct (split_pieces n ps) as [seg segs]. simpl in *.
    f_equal. by apply IH.
  - rewrite omap_cons_eq in Hall. simpl in Hall.
    apply Forall_cons in Hall as [Hm Hall].
    simpl. destruct (split_pieces n ps) as [seg segs]. simpl in *.
    rewrite concat_app, Hm. simpl. f_equal. by apply IH.
Qed.

Lemma split_pieces_length ps :
  length (split_pieces 1 ps).2 = 2 * length (omap hit_of ps).
Proof.
  induction ps as [|[c|m] ps IH]; [done| |].
  - simpl. destruct (split_pieces 1 ps) as [seg segs]. simpl in *. done.
  - rewrite omap_cons_eq. simpl.
    destruct (split_pieces 1 ps) as [seg segs]. simpl in *. lia.
Qed.

(** For a pattern that is one group, the parts of [re.split], joined,
    are the text, and their number is odd. *)
Lemma re_split_whole_group body s :
  no_marks body = true ->
  concat (re_split (Mark 0 :: body ++ [Mark 1]) s) = s /\
  length (re_split (Mark 0 :: body ++ [Mark 1]) s) =
    1 + 2 * length (re_finditer (Mark 0 :: body ++ [Mark 1]) s).
Proof.
  intros Hbody.
  assert (Hn : ngroups (Mark 0 :: body ++ [Mark 1]) = 1).
  { simpl. clear s. induction body as [|[p|lo hi p|i] k IH]; simpl in *;
      try done; by apply IH. }
  rewrite re_split_cons, Hn. split.
  - rewrite concat_cons, split_pieces_concat; [apply scan_concat|].
    destruct (scan_located (Mark 0 :: body ++ [Mark 1]) 0 s) as [Hloc _].
    eapply Forall_impl; [exact Hloc|].
    intros m (_ & _ & _ & _ & Hrun).
    unfold groups. simpl. rewrite app_nil_r.
    apply group_whole. by apply (run_whole_group body (m_rest m)).
  - simpl. by rewrite split_pieces_length.
Qed.

Lemma zip_it_concat (n : nat) (l : list str) :
  length l = 2 * n ->
  concat (map (fun p => p.1 ++ p.2) (zip_it l)) = concat l.
Proof.
  revert l. induction n as [|n IH]; intros l Hl.
  - by destruct l.
  - destruct l as [|a [|b l]]; simpl in Hl; try lia.
    simpl. rewrite IH by lia. by rewrite <- app_assoc.
Qed.

Lemma split_pairs_whole_group body s :
  no_marks body = true ->
  hd [] (re_split (Mark 0 :: body ++ [Mark 1]) s) ++
  concat (map (fun p => p.1 ++ p.2)
            (zip_it (tail (re_split (Mark 0 :: body ++ [Mark 1]) s)))) = s.
Proof.
  intros Hbody.
  destruct (re_split_whole_group body s Hbody) as [Hcat Hlen].
  destruct (re_split (Mark 0 :: body ++ [Mark 1]) s) as [|seg segs];
    [simpl in Hlen; lia|].
  simpl in *.
  rewrite (zip_it_concat
             (length (re_finditer (Mark 0 :: body ++ [Mark 1]) s)));
    [done|lia].
Qed.

(** X4: the split on the heading pattern loses no text, in both heading
    scripts: there is one part before the first heading and two parts
    per heading, so that pairing the parts after the first leaves none
    over, and the first part followed by every (heading, body) pair in
    order is the full text. *)
Theorem split_keeps_text (nd : char -> bool) (full_text : str) :
  (length (re_split (WcagPdf.pattern nd) full_text) =
     1 + 2 * length (re_finditer (WcagPdf.pattern nd) full_text) /\
   hd [] (re_split (WcagPdf.pattern nd) full_text) ++
   concat (map (fun p => p.1 ++ p.2)
             (zip_it (tail (re_split (WcagPdf.pattern nd) full_text)))) =
     full_text) /\
  (length (re_split (WcagHtml.pattern nd) full_text) =
     1 + 2 * length (re_finditer (WcagHtml.pattern nd) full_text) /\
   hd [] (re_split (WcagHtml.pattern nd) full_text) ++
   concat (map (fun p => p.1 ++ p.2)
             (zip_it (tail (re_split (WcagHtml.pattern nd) full_text)))) =
     full_text).
Proof.
  split.
  - split.
    + exact (proj2 (re_split_whole_group
                      [In (digit nd); chr "."; In (digit nd); chr ".";
                       plus (digit nd); plus space; plus not_newline]
                      full_text eq_refl)).
    + exact (split_pairs_whole_group
               [In (digit nd); chr "."; In (digit nd); chr ".";
                plus (digit nd); plus space; plus not_newline]
               full_text eq_refl).
  - split.
    + exact (proj2 (re_split_whole_group
                      (lits "Success Criterion" ++
                       [plus space; In (digit nd); chr "."; In (digit nd);
                        chr "."; plus (digit nd); plus space;
                        plus not_newline])
                      full_text eq_refl)).
    + exact (split_pairs_whole_group
               (lits "Success Criterion" ++
                [plus space; In (digit nd); chr "."; In (digit nd); chr ".";
                 plus (digit nd); plus space; plus not_newline])
               full_text eq_refl).
Qed.

End SplitMore.

(** ** What a heading decomposes into *)

Section HeadingMore.
Import Py Re.
Variable nd : char -> bool.

Lemma collapsed_head_space s :
  collapsed s = true -> 1 <= count space None s ->
  exists t, s = 32%N :: t /\ starts_space t = false /\ count space None s = 1.
Proof.
  destruct s as [|c s]; simpl; [lia|].
  unfold space. destruct (isspace c) eqn:Hc; [|lia].
  intros H _. apply andb_prop in H as [H _].
  apply andb_prop in H as [Hc32 Hs].
  apply N.eqb_eq in Hc32. apply negb_true_iff in Hs. subst c.
  exists s. repeat split; [done|].
  destruct s as [|c' s]; [done|]. simpl in *. by rewrite Hs.
Qed.

Lemma collapsed_no_newline s :
  collapsed s = true -> count not_newline None s = length s.
Proof.
  induction s as [|c s IH]; simpl; [done|].
  intros H. apply andb_prop in H as [Hc Hs].
  assert (Hnl : not_newline c = true).
  { unfold not_newline. apply negb_true_iff, N.eqb_neq. intros ->.
    simpl in Hc. done. }
  by rewrite Hnl, IH.
Qed.

Lemma normal_tail a t :
  starts_space (rev (a ++ 32%N :: t)) = false ->
  t <> [] /\ starts_space (rev t) = false.
Proof.
  rewrite rev_app_distr. simpl. rewrite <- app_assoc.
  destruct t as [|c t] using rev_ind; [done|].
  rewrite rev_app_distr. simpl. intros H. split; [|done].
  by destruct t.
Qed.

(** On a collapsed string the decomposition, when it matches, reads a
    section number, one space, and the rest as the label. *)
Lemma run_number_label s pos ms e ms' :
  collapsed s = true ->
  run (number_label nd) s pos ms = Some (e, ms') ->
  exists num title,
    s = num ++ 32%N :: title /\
    section_number nd num /\
    starts_space title = false /\
    collapsed title = true /\
    e = pos + length s /\
    ms' = (3, pos + length s) :: (2, pos + length num + 1)
            :: (1, pos + length num) :: ms.
Proof.
  intros Hcol. unfold number_label, chr, plus, star.
  destruct s as [|d1 [|p1 [|d2 [|p2 rest]]]]; cbn [run];
    try (repeat case_match; done).
  destruct (digit nd d1) eqn:Hd1; [|done].
  destruct (N.eqb_spec (ord ".") p1) as [<-|]; [|done].
  destruct (digit nd d2) eqn:Hd2; [|done].
  destruct (N.eqb_spec (ord ".") p2) as [<-|]; [|done].
  intros H. apply try_down_Some in H as (j & Hj & H & _).
  cbn [run] in H.
  apply try_down_Some in H as (i & Hi & H & _).
  cbn [run] in H.
  apply try_down_Some in H as (k & Hk & H & Htop).
  injection H as <- <-.
  pose proof (count_le_length (digit nd) None rest) as Hjlen.
  set (t0 := drop j rest) in *.
  assert (Hs : d1 :: ord "." :: d2 :: ord "." :: rest =
               (d1 :: ord "." :: d2 :: ord "." :: take j rest) ++ t0).
  { unfold t0. simpl. by rewrite take_drop. }
  assert (Hcol0 : collapsed t0 = true).
  { rewrite Hs in Hcol. by apply collapsed_app_r in Hcol. }
  destruct (collapsed_head_space t0 Hcol0 ltac:(lia)) as (t1 & Ht0 & Hst & Hc1).
  assert (i = 1) as -> by lia.
  rewrite Ht0 in Htop, Hk. simpl drop in *.
  change (drop 0 t1) with t1 in *.
  assert (Hcol1 : collapsed t1 = true).
  { rewrite Ht0 in Hcol0. by apply (collapsed_app_r [32%N]) in Hcol0. }
  assert (k = count not_newline None t1) as ->.
  { destruct (decide (k = count not_newline None t1)) as [|Hne]; [done|].
    specialize (Htop (count not_newline None t1) ltac:(lia)). done. }
  rewrite (collapsed_no_newline t1 Hcol1). clear Htop Hk.
  exists (d1 :: ord "." :: d2 :: ord "." :: take j rest), t1.
  assert (Hlen : length (take j rest) = j) by (rewrite length_take; lia).
  split; [by rewrite Hs, Ht0|].
  split.
  { exists d1, d2, (take j rest). repeat split; try done.
    - intros Hnil. rewrite Hnil in Hlen. simpl in Hlen. lia.
    - apply (count_le_Forall _ None). lia. }
  split; [done|]. split; [done|].
  rewrite Hs, Ht0, !length_app. simpl length.
  unfold str, char in *. rewrite !Hlen.
  split; [lia|]. repeat f_equal; lia.
Qed.

Lemma section_number_length num : section_number nd num -> 5 <= length num.
Proof.
  intros (d1 & d2 & ds & -> & _ & _ & Hds & _).
  destruct ds; [done|]. simpl. lia.
Qed.

(** The two groups of a match of the decomposition, read off its
    marks. *)
Lemma groups_number_label m pre num title p0 p1 p2 p3 ms0 :
  m_rest m = pre ++ num ++ 32%N :: title ->
  m_marks m = (3, p3) :: (2, p2) :: (1, p1) :: (0, p0) :: ms0 ->
  p0 = length pre -> p1 = length pre + length num -> p2 = p1 + 1 ->
  p3 = p2 + length title ->
  group m 1 = num /\ group m 2 = title.
Proof.
  intros Hrest Hmarks -> -> -> ->. unfold group, slice.
  rewrite Hrest, Hmarks.
  change (2 * 1 - 2) with 0. change (2 * 1 - 1) with 1.
  change (2 * 2 - 2) with 2. change (2 * 2 - 1) with 3.
  cbn [mark_pos Nat.eqb]. split.
  - rewrite drop_app_length.
    replace (length pre + length num - length pre) with (length num)
      by (unfold str, char; lia).
    apply take_app_length.
  - replace (length pre + length num + 1)
      with (length (pre ++ num ++ [32%N]))
      by (rewrite !length_app; simpl; unfold str, char; lia).
    replace (pre ++ num ++ 32%N :: title)
      with ((pre ++ num ++ [32%N]) ++ title)
      by (by rewrite <- !app_assoc).
    rewrite drop_app_length. apply take_ge. unfold str, char. lia.
Qed.

Lemma pdf_header_re_number_label :
  WcagPdf.header_re nd = Mark 0 :: number_label nd.
Proof. reflexivity. Qed.

Lemma html_header_re_number_label :
  WcagHtml.header_re nd =
    literal (lit "Success Criterion") ++
    plus space :: Mark 0 :: number_label nd.
Proof. reflexivity. Qed.

Lemma pdf_match_decomposed h m :
  normal h ->
  re_match (WcagPdf.header_re nd) h = Some m ->
  h = group m 1 ++ 32%N :: group m 2 /\
  section_number nd (group m 1) /\
  group m 2 <> [] /\ normal (group m 2).
Proof.
  intros (Hcol & _ & Hend). unfold re_match, match_at.
  rewrite pdf_header_re_number_label. cbn [run].
  destruct (run (number_label nd) h 0 [(0, 0)]) as [[e ms]|] eqn:Hrun;
    [|done].
  intros [= <-].
  apply run_number_label in Hrun
    as (num & title & -> & Hnum & Hst & Hct & -> & ->); [|done].
  match goal with
  | |- context [group ?m 1] =>
      edestruct (groups_number_label m [] num title) as [Hg1 Hg2];
        [reflexivity|reflexivity|reflexivity|reflexivity|reflexivity| |]
  end.
  { rewrite length_app. simpl. unfold str, char. lia. }
  rewrite Hg1, Hg2.
  destruct (normal_tail num title Hend) as [Hne Hrev].
  repeat split; done.
Qed.

Lemma html_match_decomposed h m :
  normal h ->
  re_match (WcagHtml.header_re nd) h = Some m ->
  h = lit "Success Criterion " ++ group m 1 ++ 32%N :: group m 2 /\
  section_number nd (group m 1) /\
  group m 2 <> [] /\ normal (group m 2).
Proof.
  intros (Hcol & _ & Hend). unfold re_match, match_at.
  rewrite html_header_re_number_label.
  destruct (run _ h 0 []) as [[e ms]|] eqn:Hrun; [|done].
  intros [= <-].
  apply run_literal_inv in Hrun as (t & -> & Hrun).
  unfold plus in Hrun. cbn [run] in Hrun.
  apply try_down_Some in Hrun as (i & Hi & Hrun & _).
  cbn [run] in Hrun.
  assert (Hcolt : collapsed t = true) by (by apply collapsed_app_r in Hcol).
  destruct (collapsed_head_space t Hcolt ltac:(lia)) as (t1 & -> & _ & Hc1).
  assert (i = 1) as -> by lia. simpl drop in Hrun.
  change (drop 0 t1) with t1 in Hrun.
  assert (Hcol1 : collapsed t1 = true)
    by (by apply (collapsed_app_r [32%N]) in Hcolt).
  apply run_number_label in Hrun
    as (num & title & -> & Hnum & Hst & Hct & -> & ->); [|done].
  change (lit "Success Criterion" ++ 32%N :: ?x)
    with (lit "Success Criterion " ++ x) in *.
  match goal with
  | |- context [group ?m 1] =>
      edestruct (groups_number_label m (lit "Success Criterion ") num title)
        as [Hg1 Hg2];
        [reflexivity|reflexivity|reflexivity| | | |]
  end.
  { simpl. unfold str, char. reflexivity. }
  { reflexivity. }
  { rewrite length_app. simpl. unfold str, char. lia. }
  rewrite Hg1, Hg2.
  replace (lit "Success Criterion " ++ num ++ 32%N :: title)
    with ((lit "Success Criterion " ++ num) ++ 32%N :: title) in Hend
    by (by rewrite <- app_assoc).
  destruct (normal_tail _ title Hend) as [Hne Hrev].
  repeat split; done.
Qed.

End HeadingMore.

Section HeadingRoundTrip.
Import Py Re.

(** X5: in every chunk of the PDF scraper the id is a section number,
    the section equals the id, the title is not empty and in normal
    form, and id, one space and title are exactly the cleaned heading;
    the text is the cleaned body. *)
Theorem pdf_chunk_heading (nd : char -> bool) (header body : str)
    (c : WcagPdf.chunk) :
  WcagPdf.loop nd [(header, body)] [] = Ok [c] ->
  WcagPdf.clean (Some header) = Ok (WcagPdf.id c ++ 32%N :: WcagPdf.title c) /\
  section_number nd (WcagPdf.id c) /\
  WcagPdf.section c = WcagPdf.id c /\
  WcagPdf.title c <> [] /\ normal (WcagPdf.title c) /\
  WcagPdf.clean (Some body) = Ok (WcagPdf.text c).
Proof.
  intros Hloop.
  rewrite pdf_loop_spec, app_nil_l, omap_cons_eq in Hloop.
  unfold pdf_chunk_of in Hloop. cbn [fst snd] in Hloop.
  destruct (re_match (WcagPdf.header_re nd) (clean_str header))
    as [m|] eqn:Hm; [|done].
  injection Hloop as <-.
  cbn [WcagPdf.id WcagPdf.title WcagPdf.section WcagPdf.text].
  apply pdf_match_decomposed in Hm as (Hh & Hnum & Hne & Hnorm);
    [|apply clean_str_normal].
  rewrite !pdf_clean_Some.
  split; [by f_equal|]. do 3 (split; [done|]). split; [exact Hnorm|done].
Qed.

Lemma pdf_chunk_heading_witness :
  exists c,
    WcagPdf.loop ascii_digits_only [pair_alpha] [] = Ok [c] /\
    WcagPdf.clean (Some pair_alpha.1) =
      Ok (WcagPdf.id c ++ 32%N :: WcagPdf.title c) /\
    section_number ascii_digits_only (WcagPdf.id c) /\
    WcagPdf.section c = WcagPdf.id c /\
    WcagPdf.title c <> [] /\ normal (WcagPdf.title c) /\
    WcagPdf.clean (Some pair_alpha.2) = Ok (WcagPdf.text c).
Proof.
  eexists. split; [reflexivity|].
  apply (pdf_chunk_heading ascii_digits_only pair_alpha.1 pair_alpha.2).
  reflexivity.
Defined.

Lemma html_loop_heading nd header body c :
  WcagHtml.loop nd [(header, body)] [] = [c] ->
  exists m,
    re_match (WcagHtml.header_re nd) (clean_str header) = Some m /\
    WcagHtml.id c = group m 1 /\
    WcagHtml.section c = group m 1 /\
    WcagHtml.title c = group m 2 /\
    WcagHtml.source c = WcagHtml.WCAG_URL.
Proof.
  rewrite html_loop_spec, app_nil_l, omap_cons_eq.
  unfold html_chunk_of. simpl.
  destruct (re_match (WcagHtml.header_re nd) (clean_str header)) as [m|];
    [|done].
  intros [= <-]. by exists m.
Qed.

(** X6: in every chunk of the HTML scraper the id is a section number,
    the section equals the id, the title is not empty and in normal
    form, and Success Criterion, one space, the id, one space and the
    title are exactly the cleaned heading. *)
Theorem html_chunk_heading (nd : char -> bool) (header body : str)
    (c : WcagHtml.chunk) :
  WcagHtml.loop nd [(header, body)] [] = [c] ->
  WcagHtml.clean (Some header) =
    lit "Success Criterion " ++ WcagHtml.id c ++ 32%N :: WcagHtml.title c /\
  section_number nd (WcagHtml.id c) /\
  WcagHtml.section c = WcagHtml.id c /\
  WcagHtml.title c <> [] /\ normal (WcagHtml.title c) /\
  WcagHtml.source c = WcagHtml.WCAG_URL.
Proof.
  intros Hloop.
  apply html_loop_heading in Hloop as (m & Hm & Hid & Hsec & Htitle & Hsrc).
  rewrite Hid, Hsec, Htitle, Hsrc.
  apply html_match_decomposed in Hm as (Hh & Hnum & Hne & Hnorm);
    [|apply clean_str_normal].
  rewrite html_clean_Some.
  do 4 (split; [done|]). split; [exact Hnorm|done].
Qed.

Lemma html_chunk_heading_witness :
  exists c,
    WcagHtml.loop ascii_digits_only [(contrast_header, contrast_body)] []
      = [c] /\
    WcagHtml.clean (Some contrast_header) =
      lit "Success Criterion " ++ WcagHtml.id c ++
      32%N :: WcagHtml.title c /\
    section_number ascii_digits_only (WcagHtml.id c) /\
    WcagHtml.section c = WcagHtml.id c /\
    WcagHtml.title c <> [] /\ normal (WcagHtml.title c) /\
    WcagHtml.source c = WcagHtml.WCAG_URL.
Proof.
  eexists. split; [reflexivity|].
  apply (html_chunk_heading ascii_digits_only contrast_header contrast_body).
  reflexivity.
Defined.

End HeadingRoundTrip.

(** ** The values of the level *)

Section LevelMore.
Import Py Re.

Lemma search_from_Some prog pos s m :
  search_from prog pos s = Some m ->
  exists pos' s', match_at prog pos' s' = Some m.
Proof.
  revert pos. induction s as [|c s IH]; intros pos; simpl.
  - destruct (match_at prog pos []) as [m'|] eqn:Hm; [|done].
    intros [= <-]. by exists pos, [].
  - destruct (match_at prog pos (c :: s)) as [m'|] eqn:Hm.
    + intros [= <-]. by exists pos, (c :: s).
    + apply IH.
Qed.

Lemma search_level_group s m :
  re_search WcagHtml.level_re s = Some m -> List.In (group m 1) levels.
Proof.
  intros H. apply search_from_Some in H as (pos & s' & Hm).
  destruct (run WcagHtml.level_re s' 0 []) as [[e ms]|] eqn:Hrun.
  2:{ apply match_at_None with (pos := pos) in Hrun. congruence. }
  apply run_level_inv in Hrun as (ws & k & u & -> & Hws & Hblank & Hk & _).
  rewrite (group_level pos ws k u m) by done.
  assert (k = 1 \/ k = 2 \/ k = 3) as [-> | [-> | ->]] by lia; simpl; auto.
Qed.

(** X7: the level of a chunk of the HTML scraper is absent exactly when
    the body has no level marker, and is otherwise one of A, AA and
    AAA. *)
Theorem level_values (nd : char -> bool) (header body : str)
    (c : WcagHtml.chunk) :
  WcagHtml.loop nd [(header, body)] [] = [c] ->
  (WcagHtml.level c = None <-> ~ has_marker body) /\
  (forall l, WcagHtml.level c = Some l -> List.In l levels).
Proof.
  intros Hloop. apply html_loop_single in Hloop as [Hlevel _].
  rewrite Hlevel. split; [split|].
  - destruct (re_search WcagHtml.level_re (strip body)) eqn:Hs; [done|].
    intros _ H. apply has_marker_strip_inv in H.
    by apply (no_marker_search _ Hs).
  - intros Hno. unfold re_search.
    rewrite search_level_no_marker; [done|].
    intros H. by apply Hno, has_marker_strip.
  - intros l.
    destruct (re_search WcagHtml.level_re (strip body)) as [m|] eqn:Hs;
      [|done].
    intros [= <-]. by apply (search_level_group (strip body)).
Qed.

Lemma level_values_witness :
  exists c,
    WcagHtml.loop ascii_digits_only [(contrast_header, contrast_body)] []
      = [c] /\
    (WcagHtml.level c = None <-> ~ has_marker contrast_body) /\
    (forall l, WcagHtml.level c = Some l -> List.In l levels).
Proof.
  eexists. split; [reflexivity|].
  apply (level_values ascii_digits_only contrast_header contrast_body).
  reflexivity.
Defined.

End LevelMore.

(** ** The chunks of the page scrape *)

Section AccessBoardMore.
Import Py AccessBoard.

Lemma map_ascii_of_ord (l : list ascii) : map ascii_of_N (map ord l) = l.
Proof.
  induction l as [|a l IH]; simpl; [done|].
  unfold ord at 1. by rewrite ascii_N_embedding, IH.
Qed.

Lemma lit_inj (s s' : string) : lit s = lit s' -> s = s'.
Proof.
  unfold lit. intros H.
  apply (f_equal (map ascii_of_N)) in H.
  rewrite !map_ascii_of_ord in H.
  apply (f_equal string_of_list_ascii) in H.
  by rewrite !string_of_list_ascii_of_string in H.
Qed.

Lemma uint_of_string_of_nat (n : nat) :
  option_map Nat.of_uint
    (NilZero.uint_of_string (NilZero.string_of_uint (Nat.to_uint n))) =
    Some n.
Proof.
  destruct (Nat.to_uint n) eqn:Hn;
    try (rewrite NilZero.usu by done; simpl;
         by rewrite <- Hn, DecimalNat.Unsigned.of_to).
  rewrite NilZero.usu_nil. simpl.
  by rewrite <- (DecimalNat.Unsigned.of_to n), Hn.
Qed.

(** The decimal text of an index determines the index. *)
Lemma str_of_nat_inj (i j : nat) : str_of_nat i = str_of_nat j -> i = j.
Proof.
  unfold str_of_nat. intros H. apply lit_inj in H.
  pose proof (uint_of_string_of_nat i) as Hi.
  rewrite H, uint_of_string_of_nat in Hi. by injection Hi.
Qed.

Lemma filter_str_bool_lookup (l : list str) i x :
  List.filter str_bool l !! i = Some x -> x <> [].
Proof.
  intros H. apply list_elem_of_lookup_2, list_elem_of_In in H.
  apply filter_In in H as [_ H]. by destruct x.
Qed.

(** X8: the page scrape never fails, not even without elements; it
    emits one chunk per element text that is not empty, in order; the
    chunk at position [i] carries the index [i] in its id, a text that is
    not empty and the url as source; and no two chunks have the same
    id. *)
Theorem flat_chunks_indexed (els : list element) :
  exists cs,
    main els = Ok cs /\
    length cs = length (List.filter str_bool (map get_text els)) /\
    (forall i c,
       cs !! i = Some c ->
       id c = lit "access-board-ict-" ++ str_of_nat i /\
       List.filter str_bool (map get_text els) !! i = Some (text c) /\
       text c <> [] /\
       source c = url) /\
    NoDup (map id cs).
Proof.
  destruct (last els) as [e|] eqn:Hlast.
  2:{ apply last_None in Hlast. subst els. exists [].
      do 2 (split; [done|]). split; [|constructor].
      intros i c H. by rewrite lookup_nil in H. }
  exists (imap (chunk_at e) (List.filter str_bool (map get_text els))).
  split; [by apply main_spec|].
  split; [apply length_imap|].
  split.
  - intros i c. rewrite list_lookup_imap.
    destruct (List.filter str_bool (map get_text els) !! i) as [x|] eqn:Hx;
      [|done].
    intros [= <-]. simpl.
    repeat split; try done.
    by apply (filter_str_bool_lookup (map get_text els) i).
  - apply NoDup_alt. intros i j x.
    rewrite !list_lookup_fmap, !list_lookup_imap.
    destruct (List.filter str_bool (map get_text els) !! i); [|done].
    destruct (List.filter str_bool (map get_text els) !! j); [|done].
    simpl. intros [= <-] [= H].
    symmetry. by apply str_of_nat_inj.
Qed.

(** *** Lists that only grow *)

Lemma build_all (e : element) (items : list (nat * str)) chunks :
  build (Some e) items chunks =
    Ok (chunks ++ map (fun item => chunk_at e item.1 item.2) items).
Proof.
  revert chunks. induction items as [|[i para] items IH]; intros chunks.
  - simpl. by rewrite app_nil_r.
  - simpl. rewrite IH. by rewrite <- app_assoc.
Qed.

(** X9: the loops of the three scripts only append: what a loop is
    given is kept, unchanged and in order, in front of what the loop
    adds, and what it adds does not depend on what it was given. *)
Theorem loops_only_append (nd : Py.char -> bool)
    (pairs : list (str * str))
    (pdf_chunks : list WcagPdf.chunk) (html_chunks : list WcagHtml.chunk)
    (els : list element) (paragraphs : list str) (el : option element)
    (e : element) (items : list (nat * str)) (chunks : list chunk) :
  (exists new,
     WcagPdf.loop nd pairs [] = Ok new /\
     WcagPdf.loop nd pairs pdf_chunks = Ok (pdf_chunks ++ new)) /\
  WcagHtml.loop nd pairs html_chunks =
    html_chunks ++ WcagHtml.loop nd pairs [] /\
  (extract els paragraphs el).1 = paragraphs ++ (extract els [] el).1 /\
  (exists new,
     build (Some e) items [] = Ok new /\
     build (Some e) items chunks = Ok (chunks ++ new)).
Proof.
  split; [|split; [|split]].
  - exists (omap (pdf_chunk_of nd) pairs). by rewrite !pdf_loop_spec.
  - by rewrite !html_loop_spec.
  - by rewrite !extract_spec.
  - exists (map (fun item => chunk_at e item.1 item.2) items).
    by rewrite !build_all.
Qed.

End AccessBoardMore.

(** ** Which headings decompose *)

Section HeadingAccepted.
Import Py Re.
Variable nd : char -> bool.

(** No decimal digit of the Unicode table is whitespace. *)
Hypothesis digit_nonspace : forall c, digit nd c = true -> isspace c = false.

Lemma clean_str_nil_blank s : clean_str s = [] -> blank s.
Proof.
  intros H. pose proof (clean_str_nonspace s) as Hf. rewrite H in Hf.
  simpl in Hf. clear H.
  induction s as [|c s IH]; [constructor|].
  simpl in Hf. unfold nonspace at 1 in Hf.
  destruct (isspace c) eqn:Hc; simpl in Hf; [|done].
  constructor; [done|]. by apply IH.
Qed.

Lemma section_number_nonspace num :
  section_number nd num -> Forall (fun c => isspace c = false) num.
Proof.
  intros (d1 & d2 & ds & -> & Hd1 & Hd2 & _ & Hds).
  repeat constructor; auto.
  eapply Forall_impl; [exact Hds|]. apply digit_nonspace.
Qed.

Lemma section_number_ends num :
  section_number nd num -> num <> [] /\ starts_space (rev num) = false.
Proof.
  intros Hnum. pose proof (section_number_nonspace num Hnum) as Hall.
  split; [by destruct Hnum as (d1 & d2 & ds & -> & _)|].
  apply List.Forall_rev in Hall.
  destruct Hall as [|c r Hc _]; [done|exact Hc].
Qed.

(** The cleaned heading, by what follows the section number. *)
Lemma clean_str_number_blank num rest :
  section_number nd num -> blank rest -> clean_str (num ++ rest) = num.
Proof.
  intros Hnum Hrest.
  pose proof (section_number_nonspace num Hnum) as Hns.
  destruct (section_number_ends num Hnum) as [Hne Hend].
  unfold clean_str, strip.
  rewrite squeeze_nonspace_app by done.
  rewrite lstrip_id.
  2:{ destruct num as [|c num]; [done|]. by inversion Hns. }
  rewrite rstrip_app_blank by (by apply squeeze_blank).
  by apply rstrip_id.
Qed.

Lemma clean_str_number_label num rest :
  section_number nd num -> starts_space rest = true -> ~ blank rest ->
  clean_str (num ++ rest) = num ++ 32%N :: clean_str rest /\
  clean_str rest <> [].
Proof.
  intros Hnum Hstart Hnb.
  pose proof (section_number_nonspace num Hnum) as Hns.
  assert (Hne : clean_str rest <> []).
  { intros H. by apply Hnb, clean_str_nil_blank. }
  split; [|done].
  destruct rest as [|c rest]; [done|]. simpl in Hstart.
  unfold clean_str, strip in *.
  rewrite squeeze_nonspace_app by done.
  rewrite squeeze_cons, Hstart in *.
  rewrite lstrip_id.
  2:{ destruct num as [|c' num]; [by destruct Hnum as (?&?&?&?&_)|].
      by inversion Hns. }
  change (lstrip (32%N :: ?q)) with (lstrip q) in *.
  rewrite (lstrip_id (squeeze (lstrip rest))) in *
    by (rewrite starts_space_squeeze; apply starts_space_lstrip).
  change (num ++ 32%N :: ?q) with (num ++ [32%N] ++ q).
  rewrite app_assoc, rstrip_app_nonblank by done.
  by rewrite <- app_assoc.
Qed.

Lemma clean_str_number_other num x rest :
  section_number nd num -> isspace x = false ->
  exists t, clean_str (num ++ x :: rest) = num ++ x :: t.
Proof.
  intros Hnum Hx.
  pose proof (section_number_nonspace num Hnum) as Hns.
  unfold clean_str, strip.
  rewrite squeeze_nonspace_app by done.
  rewrite squeeze_cons, Hx.
  rewrite lstrip_id.
  2:{ destruct num as [|c' num]; [by destruct Hnum as (?&?&?&?&_)|].
      by inversion Hns. }
  change (num ++ x :: ?q) with (num ++ [x] ++ q).
  rewrite app_assoc, rstrip_app.
  - exists (rstrip (squeeze rest)). by rewrite <- app_assoc.
  - by destruct num.
  - rewrite rev_app_distr. simpl. by rewrite Hx.
Qed.

(** *** The matcher on a cleaned heading *)

Lemma count_space_0 hi t : starts_space t = false -> count space hi t = 0.
Proof.
  destruct t as [|c t]; [done|]. simpl. unfold space. by intros ->.
Qed.

Lemma try_down_1_0 {A : Type} (f : nat -> option A) : try_down f 1 0 = None.
Proof. reflexivity. Qed.

Lemma run_number_label_accepts num title pos ms :
  section_number nd num ->
  title <> [] -> starts_space title = false -> collapsed title = true ->
  run (number_label nd) (num ++ 32%N :: title) pos ms =
    Some (pos + length num + 1 + length title,
          (3, pos + length num + 1 + length title)
            :: (2, pos + length num + 1) :: (1, pos + length num) :: ms).
Proof.
  intros (d1 & d2 & ds & -> & Hd1 & Hd2 & Hne & Hds) Htne Hst Hcol.
  unfold number_label, chr, plus, star.
  cbn [run app]. change (ord ".") with 46%N.
  rewrite Hd1, Hd2, !N.eqb_refl.
  assert (Hlen : 1 <= length ds) by (destruct ds; [done|simpl; lia]).
  rewrite count_None_app by done.
  change (count (digit nd) None (32%N :: title)) with 0.
  rewrite Nat.add_0_r.
  apply try_down_top; [done|].
  rewrite drop_app_length. cbn [run].
  change (count space None (32%N :: title))
    with (S (count space None title)).
  rewrite count_space_0 by done.
  apply try_down_top; [done|].
  change (drop 1 (32%N :: title)) with title. cbn [run].
  apply try_down_top; [lia|].
  rewrite collapsed_no_newline by done.
  cbn [length]. unfold str, char. repeat (f_equal; try lia).
Qed.

Lemma starts_space_drop_digits ds t j :
  Forall (fun c => digit nd c = true) ds ->
  starts_space t = false -> j <= length ds ->
  starts_space (drop j (ds ++ t)) = false.
Proof.
  intros Hds Ht. revert j.
  induction Hds as [|c ds Hc _ IH]; intros j Hj.
  - simpl in Hj. assert (j = 0) as -> by lia. done.
  - destruct j as [|j]; simpl.
    + by apply digit_nonspace.
    + apply IH. simpl in Hj. lia.
Qed.

Lemma run_number_label_rejects num t pos ms :
  section_number nd num ->
  starts_space t = false ->
  match t with x :: _ => digit nd x = false | [] => True end ->
  run (number_label nd) (num ++ t) pos ms = None.
Proof.
  intros (d1 & d2 & ds & -> & Hd1 & Hd2 & Hne & Hds) Hst Hx.
  unfold number_label, chr, plus, star.
  cbn [run app]. change (ord ".") with 46%N.
  rewrite Hd1, Hd2, !N.eqb_refl.
  rewrite count_None_app by done.
  assert (Hc0 : count (digit nd) None t = 0).
  { destruct t as [|x t]; [done|]. simpl. by rewrite Hx. }
  rewrite Hc0, Nat.add_0_r.
  apply try_down_None. intros j Hj. cbn [run].
  rewrite count_space_0; [done|].
  apply starts_space_drop_digits; [done|done|lia].
Qed.

(** The decomposition of the PDF scraper on a cleaned heading. *)
Lemma pdf_match_accepts num title :
  section_number nd num ->
  title <> [] -> starts_space title = false -> collapsed title = true ->
  exists m,
    re_match (WcagPdf.header_re nd) (num ++ 32%N :: title) = Some m /\
    group m 1 = num /\ group m 2 = title.
Proof.
  intros Hnum Hne Hst Hcol. unfold re_match, match_at.
  rewrite pdf_header_re_number_label. cbn [run].
  rewrite run_number_label_accepts by done.
  eexists. split; [reflexivity|].
  eapply (groups_number_label _ [] num title);
    [reflexivity|reflexivity|reflexivity|reflexivity| |];
    simpl; unfold str, char; lia.
Qed.

Lemma pdf_match_rejects num t :
  section_number nd num ->
  starts_space t = false ->
  match t with x :: _ => digit nd x = false | [] => True end ->
  re_match (WcagPdf.header_re nd) (num ++ t) = None.
Proof.
  intros Hnum Hst Hx. unfold re_match, match_at.
  rewrite pdf_header_re_number_label. cbn [run].
  by rewrite run_number_label_rejects.
Qed.

(** X10: what the PDF scraper does with a heading that starts with a
    section number is decided by what follows the number.  Nothing, or
    whitespace only: no chunk.  Whitespace and then some text: one chunk,
    with the number as id and section and the cleaned rest as title.  A
    character that is neither whitespace nor a digit: no chunk.  This
    holds for every table of decimal digits none of which is
    whitespace, as is the case in Unicode. *)
Theorem pdf_heading_decided (num rest body : str) :
  section_number nd num ->
  (blank rest -> WcagPdf.loop nd [(num ++ rest, body)] [] = Ok []) /\
  (starts_space rest = true -> ~ blank rest ->
   exists title text,
     WcagPdf.clean (Some rest) = Ok title /\
     WcagPdf.clean (Some body) = Ok text /\
     WcagPdf.loop nd [(num ++ rest, body)] [] =
       Ok [ {| WcagPdf.id := num;
               WcagPdf.section := num;
               WcagPdf.title := title;
               WcagPdf.text := text;
               WcagPdf.source := lit "WCAG 2.2 PDF" |} ]) /\
  (forall x rest',
     rest = x :: rest' -> isspace x = false -> digit nd x = false ->
     WcagPdf.loop nd [(num ++ rest, body)] [] = Ok []).
Proof.
  intros Hnum.
  rewrite pdf_loop_spec, app_nil_l, omap_cons_eq.
  unfold pdf_chunk_of. cbn [fst snd].
  split; [|split].
  - intros Hblank. rewrite clean_str_number_blank by done.
    rewrite <- (app_nil_r num) at 1.
    by rewrite pdf_match_rejects.
  - intros Hstart Hnb.
    destruct (clean_str_number_label num rest Hnum Hstart Hnb) as [-> Hne].
    destruct (clean_str_normal rest) as (Hcol & Hst & _).
    destruct (pdf_match_accepts num (clean_str rest)) as (m & -> & -> & ->);
      try done.
    exists (clean_str rest), (clean_str body).
    by rewrite !pdf_clean_Some.
  - intros x rest' -> Hx Hdx.
    destruct (clean_str_number_other num x rest' Hnum Hx) as (t & ->).
    rewrite pdf_match_rejects; [done|done|simpl; by rewrite Hx|done].
Qed.

(** *** The same for the HTML scraper *)

Lemma try_down_1_1 {A : Type} (f : nat -> option A) : try_down f 1 1 = f 1.
Proof. simpl. by destruct (f 1). Qed.

Lemma squeeze_blank_app ws x :
  ws <> [] -> blank ws -> starts_space x = false ->
  squeeze (ws ++ x) = 32%N :: squeeze x.
Proof.
  intros Hne Hblank Hx. destruct Hblank as [|c ws Hc Hblank]; [done|].
  simpl. rewrite squeeze_cons, Hc.
  by rewrite lstrip_app_blank, lstrip_id.
Qed.

Lemma clean_str_success_criterion ws x :
  ws <> [] -> blank ws -> starts_space x = false -> clean_str x <> [] ->
  clean_str (lit "Success Criterion" ++ ws ++ x) =
    lit "Success Criterion " ++ clean_str x.
Proof.
  intros Hne Hblank Hx Hclean.
  assert (Hsq : squeeze (lit "Success Criterion" ++ ws ++ x) =
                lit "Success Criterion " ++ squeeze x).
  { change (lit "Success Criterion" ++ ws ++ x)
      with (lit "Success" ++ 32%N :: lit "Criterion" ++ ws ++ x).
    rewrite squeeze_nonspace_app by (by repeat constructor).
    rewrite squeeze_cons. change (isspace 32%N) with true. cbv iota.
    change (lstrip (lit "Criterion" ++ ws ++ x))
      with (lit "Criterion" ++ ws ++ x).
    rewrite squeeze_nonspace_app by (by repeat constructor).
    by rewrite squeeze_blank_app. }
  unfold clean_str, strip in *. rewrite Hsq.
  change (lstrip (lit "Success Criterion " ++ ?q))
    with (lit "Success Criterion " ++ q).
  rewrite (lstrip_id (squeeze x)) in Hclean
    by (by rewrite starts_space_squeeze).
  rewrite rstrip_app_nonblank by done.
  by rewrite (lstrip_id (squeeze x)) by (by rewrite starts_space_squeeze).
Qed.

Lemma html_run_after_prefix y :
  starts_space y = false ->
  run (WcagHtml.header_re nd) (lit "Success Criterion " ++ y) 0 [] =
    run (number_label nd) y 18 [(0, 18)].
Proof.
  intros Hy. rewrite html_header_re_number_label.
  change (lit "Success Criterion " ++ y)
    with (lit "Success Criterion" ++ 32%N :: y).
  rewrite run_literal_app. unfold plus. cbn [run].
  change (count space None (32%N :: y)) with (S (count space None y)).
  rewrite count_space_0 by done.
  by rewrite try_down_1_1.
Qed.

Lemma html_match_accepts num title :
  section_number nd num ->
  title <> [] -> starts_space title = false -> collapsed title = true ->
  exists m,
    re_match (WcagHtml.header_re nd)
      (lit "Success Criterion " ++ num ++ 32%N :: title) = Some m /\
    group m 1 = num /\ group m 2 = title.
Proof.
  intros Hnum Hne Hst Hcol. unfold re_match, match_at.
  rewrite html_run_after_prefix.
  2:{ destruct Hnum as (d1 & d2 & ds & -> & Hd1 & _). simpl.
      by apply digit_nonspace. }
  rewrite run_number_label_accepts by done.
  eexists. split; [reflexivity|].
  eapply (groups_number_label _ (lit "Success Criterion ") num title);
    [reflexivity|reflexivity|reflexivity| | |];
    simpl; unfold str, char; lia.
Qed.

Lemma html_match_rejects num t :
  section_number nd num ->
  starts_space t = false ->
  match t with x :: _ => digit nd x = false | [] => True end ->
  re_match (WcagHtml.header_re nd) (lit "Success Criterion " ++ num ++ t)
    = None.
Proof.
  intros Hnum Hst Hx. unfold re_match, match_at.
  rewrite html_run_after_prefix.
  2:{ destruct Hnum as (d1 & d2 & ds & -> & Hd1 & _). simpl.
      by apply digit_nonspace. }
  by rewrite run_number_label_rejects.
Qed.

(** X11: what the HTML scraper does with a heading made of Success
    Criterion, whitespace and a section number is decided by what
    follows the number.  Nothing, or whitespace only: no chunk.
    Whitespace and then some text: one chunk, with the number as id and
    section and the cleaned rest as title.  A character that is neither
    whitespace nor a digit: no chunk.  This holds for every table of
    decimal digits none of which is whitespace, as is the case in
    Unicode. *)
Theorem html_heading_decided (ws num rest body : str) :
  ws <> [] -> Forall (fun c => isspace c = true) ws ->
  section_number nd num ->
  let header := lit "Success Criterion" ++ ws ++ num ++ rest in
  (blank rest -> WcagHtml.loop nd [(header, body)] [] = []) /\
  (starts_space rest = true -> ~ blank rest ->
   exists c,
     WcagHtml.loop nd [(header, body)] [] = [c] /\
     WcagHtml.id c = num /\
     WcagHtml.section c = num /\
     WcagHtml.title c = WcagHtml.clean (Some rest)) /\
  (forall x rest',
     rest = x :: rest' -> isspace x = false -> digit nd x = false ->
     WcagHtml.loop nd [(header, body)] [] = []).
Proof.
  intros Hws Hblank Hnum header. subst header.
  assert (Hstart : starts_space (num ++ rest) = false).
  { destruct Hnum as (d1 & d2 & ds & -> & Hd1 & _). simpl.
    by apply digit_nonspace. }
  assert (Hnumne : num <> [])
    by (by destruct Hnum as (d1 & d2 & ds & -> & _)).
  rewrite html_loop_spec, app_nil_l, omap_cons_eq.
  unfold html_chunk_of. cbn [fst snd].
  split; [|split].
  - intros Hrest.
    rewrite clean_str_success_criterion; try done.
    + rewrite clean_str_number_blank by done.
      rewrite <- (app_nil_r num) at 1.
      by rewrite html_match_rejects.
    + by rewrite clean_str_number_blank.
  - intros Hst Hnb.
    destruct (clean_str_number_label num rest Hnum Hst Hnb) as [Hcl Hne].
    rewrite clean_str_success_criterion; try done.
    2:{ rewrite Hcl. by destruct num. }
    rewrite Hcl.
    destruct (clean_str_normal rest) as (Hcol & Hstt & _).
    destruct (html_match_accepts num (clean_str rest))
      as (m & -> & Hg1 & Hg2); try done.
    eexists. split; [reflexivity|].
    cbn [WcagHtml.id WcagHtml.section WcagHtml.title].
    by rewrite html_clean_Some.
  - intros x rest' -> Hx Hdx.
    destruct (clean_str_number_other num x rest' Hnum Hx) as (t & Hcl).
    rewrite clean_str_success_criterion; try done.
    2:{ rewrite Hcl. by destruct num. }
    rewrite Hcl.
    rewrite html_match_rejects; [done|done|simpl; by rewrite Hx|done].
Qed.

End HeadingAccepted.

Section HeadingAcceptedWitness.
Import Py Re.

Lemma ascii_digit_nonspace (c : char) :
  digit ascii_digits_only c = true -> isspace c = false.
Proof.
  unfold digit, ascii_digits_only.
  destruct (c <? 128)%N; [|done].
  intros H. apply andb_prop in H as [H1 H2].
  apply N.leb_le in H1, H2. unfold isspace.
  replace (c <=? 13)%N with false by (symmetry; apply N.leb_gt; lia).
  replace (c <=? 32)%N with false by (symmetry; apply N.leb_gt; lia).
  replace (8192 <=? c)%N with false by (symmetry; apply N.leb_gt; lia).
  replace (c =? 133)%N with false by (symmetry; apply N.eqb_neq; lia).
  replace (c =? 160)%N with false by (symmetry; apply N.eqb_neq; lia).
  replace (c =? 5760)%N with false by (symmetry; apply N.eqb_neq; lia).
  replace (c =? 8232)%N with false by (symmetry; apply N.eqb_neq; lia).
  replace (c =? 8233)%N with false by (symmetry; apply N.eqb_neq; lia).
  replace (c =? 8239)%N with false by (symmetry; apply N.eqb_neq; lia).
  replace (c =? 8287)%N with false by (symmetry; apply N.eqb_neq; lia).
  replace (c =? 12288)%N with false by (symmetry; apply N.eqb_neq; lia).
  by rewrite !andb_false_r.
Qed.

Lemma section_number_111 : section_number ascii_digits_only (lit "1.1.1").
Proof.
  exists 49%N, 49%N, [49%N]. repeat split; [done|by repeat constructor].
Qed.

Lemma pdf_heading_decided_witness :
  WcagPdf.loop ascii_digits_only [(lit "1.1.1" ++ lit "  ", lit "one")] []
    = Ok [] /\
  (exists title text,
     WcagPdf.clean (Some (lit " Alpha")) = Ok title /\
     WcagPdf.clean (Some (lit "one")) = Ok text /\
     WcagPdf.loop ascii_digits_only
       [(lit "1.1.1" ++ lit " Alpha", lit "one")] [] =
       Ok [ {| WcagPdf.id := lit "1.1.1";
               WcagPdf.section := lit "1.1.1";
               WcagPdf.title := title;
               WcagPdf.text := text;
               WcagPdf.source := lit "WCAG 2.2 PDF" |} ]) /\
  WcagPdf.loop ascii_digits_only [(lit "1.1.1" ++ lit "-x", lit "one")] []
    = Ok [].
Proof.
  split; [|split].
  - apply (pdf_heading_decided ascii_digits_only ascii_digit_nonspace
             (lit "1.1.1") (lit "  ") (lit "one") section_number_111).
    by repeat constructor.
  - apply (pdf_heading_decided ascii_digits_only ascii_digit_nonspace
             (lit "1.1.1") (lit " Alpha") (lit "one") section_number_111).
    + reflexivity.
    + intros H. by inversion H as [|? ? ? H']; inversion H'.
  - apply (proj2 (proj2 (pdf_heading_decided ascii_digits_only
             ascii_digit_nonspace (lit "1.1.1") (lit "-x") (lit "one")
             section_number_111)) 45%N (lit "x")); reflexivity.
Defined.

Lemma html_heading_decided_witness :
  WcagHtml.loop ascii_digits_only
    [(lit "Success Criterion" ++ [nl] ++ lit "1.1.1" ++ lit "  ",
      lit "one")] [] = [] /\
  (exists c,
     WcagHtml.loop ascii_digits_only
       [(lit "Success Criterion" ++ [nl] ++ lit "1.1.1" ++ lit " Alpha",
         lit "one")] [] = [c] /\
     WcagHtml.id c = lit "1.1.1" /\
     WcagHtml.section c = lit "1.1.1" /\
     WcagHtml.title c = WcagHtml.clean (Some (lit " Alpha"))) /\
  WcagHtml.loop ascii_digits_only
    [(lit "Success Criterion" ++ [nl] ++ lit "1.1.1" ++ lit "-x",
      lit "one")] [] = [].
Proof.
  assert (Hnl : Forall (fun c => isspace c = true) [nl])
    by (by repeat constructor).
  split; [|split].
  - apply (html_heading_decided ascii_digits_only ascii_digit_nonspace
             [nl] (lit "1.1.1") (lit "  ") (lit "one")
             ltac:(discriminate) Hnl section_number_111).
    by repeat constructor.
  - apply (html_heading_decided ascii_digits_only ascii_digit_nonspace
             [nl] (lit "1.1.1") (lit " Alpha") (lit "one")
             ltac:(discriminate) Hnl section_number_111).
    + reflexivity.
    + intros H. by inversion H as [|? ? ? H']; inversion H'.
  - apply (proj2 (proj2 (html_heading_decided ascii_digits_only
             ascii_digit_nonspace [nl] (lit "1.1.1") (lit "-x") (lit "one")
             ltac:(discriminate) Hnl section_number_111)) 45%N (lit "x"));
      reflexivity.
Defined.

End HeadingAcceptedWitness.
